(** * ENS playground: lookup orchestration and graph-input parsing

    A shallow embedding of the two pieces of logic of the front end
    ([App]): the graph parser [parseGraphInput] and the lookup
    orchestrator [doLookup], followed by the properties established
    about them.

    Conventions of the embedding.
    - A JavaScript string is a [string]: a sequence of code units, here
      the code units below 256.
    - A regular expression is run by a small backtracking matcher for the
      constructs the source uses.
    - Asynchronous, effectful code is a state-passing computation with
      JavaScript completions (normal, [return], [throw]). *)

From Stdlib Require Import List String Ascii Bool Arith ZArith Lia.
From Stdlib Require DecimalString.
Import ListNotations.
Open Scope string_scope.
Open Scope list_scope.

(** Template-literal concatenation. *)
Notation "a +++ b" := (String.append a b) (at level 60, right associativity).

(* ================================================================= *)
(** ** JavaScript string built-ins *)

Module JsString.

Definition chars (s : string) : list ascii := list_ascii_of_string s.
Definition ofChars (l : list ascii) : string := string_of_list_ascii l.

(** [WhiteSpace] and [LineTerminator] code units below 256: TAB, LF, VT,
    FF, CR, SP and NBSP. *)
Definition isWhiteSpace (c : ascii) : bool :=
  let n := nat_of_ascii c in
  ((n =? 9) || (n =? 10) || (n =? 11) || (n =? 12) || (n =? 13)
   || (n =? 32) || (n =? 160))%nat.

Fixpoint dropWhile (p : ascii -> bool) (l : list ascii) : list ascii :=
  match l with
  | [] => []
  | c :: l' => if p c then dropWhile p l' else l
  end.

Definition trimStart (l : list ascii) : list ascii := dropWhile isWhiteSpace l.
Definition trimEnd (l : list ascii) : list ascii :=
  List.rev (dropWhile isWhiteSpace (List.rev l)).

(** [String.prototype.trim] on code units. *)
Definition trimChars (l : list ascii) : list ascii := trimEnd (trimStart l).
Definition trim (s : string) : string := ofChars (trimChars (chars s)).

(** [s.startsWith(p)]. *)
Definition startsWith (s p : string) : bool := String.prefix p s.

Fixpoint drop (n : nat) (s : string) : string :=
  match n, s with
  | O, _ => s
  | S _, EmptyString => EmptyString
  | S n', String _ s' => drop n' s'
  end.

(** [s.replace(pat, rep)] for a string pattern: the first occurrence of
    [pat] is replaced.  [rep] is taken literally (the replacement used by
    the source has no [$] pattern). *)
Fixpoint replace (s pat rep : string) : string :=
  if String.prefix pat s then rep +++ drop (String.length pat) s
  else match s with
       | EmptyString => EmptyString
       | String c s' => String c (replace s' pat rep)
       end.

(** Truthiness of a string: non-empty. *)
Definition truthy (s : string) : bool :=
  match s with EmptyString => false | _ => true end.

(** [String(n)] for a non-negative integer. *)
Definition ofNat (n : nat) : string := DecimalString.NilZero.string_of_uint (Nat.to_uint n).

End JsString.

(* ================================================================= *)
(** ** A backtracking matcher for the regular expressions of the source *)

Module RegExp.

(** The pattern items the source's expression is built from: a literal
    character, and a capturing group [([^c]+)] around a greedy, one or
    more times repeated negated class.  The class is given by the list
    of excluded characters. *)
Inductive item : Type :=
| Lit (c : ascii)
| GroupPlusNot (excluded : list ascii).

Definition inClass (excluded : list ascii) (c : ascii) : bool :=
  negb (existsb (Ascii.eqb c) excluded).

(** Greedy repetition with backtracking: consume as many characters of
    the class as possible and give the continuation [k] the consumed
    text and the rest; when the continuation fails, give back one
    character and try again. *)
Fixpoint greedy {R : Type} (excluded : list ascii)
         (k : list ascii -> list ascii -> option R)
         (s : list ascii) : option R :=
  match s with
  | [] => k [] []
  | c :: s' =>
      if inClass excluded c then
        match greedy excluded (fun g r => k (c :: g) r) s' with
        | Some r => Some r
        | None => k [] s
        end
      else k [] s
  end.

(** Match a sequence of items at the head of [s]; the result holds the
    captures, in order, and the text after the match. *)
Fixpoint matchItems (items : list item) (s : list ascii)
         (caps : list (list ascii)) : option (list (list ascii) * list ascii) :=
  match items with
  | [] => Some (caps, s)
  | Lit c :: items' =>
      match s with
      | x :: s' => if Ascii.eqb x c then matchItems items' s' caps else None
      | [] => None
      end
  | GroupPlusNot excluded :: items' =>
      match s with
      | x :: s' =>
          if inClass excluded x then
            greedy excluded
                   (fun g r => matchItems items' r (caps ++ [x :: g])) s'
          else None
      | [] => None
      end
  end.

(** [re.exec(input)] for a global expression.  The expression's
    [lastIndex] is represented by the text from [lastIndex] on, [s]:
    the search tries each start position from there, left to right.  On
    success the captures are returned with the text after the match
    (the new [lastIndex]); on failure [null]. *)
Fixpoint exec (items : list item) (s : list ascii)
  : option (list (list ascii) * list ascii) :=
  match matchItems items s [] with
  | Some r => Some r
  | None => match s with
            | [] => None
            | _ :: s' => exec items s'
            end
  end.

End RegExp.

(* ================================================================= *)
(** ** The graph parser *)

Module Graph.
Import JsString RegExp.

Record INode : Type := mkNode
  { id : string; title : string; type : string; x : Z; y : Z }.

Record IEdge : Type := mkEdge
  { source : string; target : string; type' : string }.

Record graph : Type := mkGraph { nodes : list INode; edges : list IEdge }.

(** [/\(([^,]+),([^)]+)\)/g] *)
Definition pairRegex : list item :=
  [Lit "("; GroupPlusNot [","%char]; Lit ","; GroupPlusNot [")"%char]; Lit ")"].

(** The loop
    [while ((match = pairRegex.exec(input)) !== null) pairs.push(...)].
    [s] is the input from the expression's [lastIndex] on. *)
Fixpoint execLoop (fuel : nat) (s : list ascii) (pairs : list (string * string))
  : option (list (string * string)) :=
  match fuel with
  | O => None
  | S fuel' =>
      match exec pairRegex s with
      | None => Some pairs
      | Some (caps, rest) =>
          execLoop fuel' rest
            (pairs ++ [(trim (ofChars (nth 0 caps [])),
                        trim (ofChars (nth 1 caps [])))])
      end
  end.

(** A [Set<string>]: its elements in insertion order. *)
Definition Set_has (s : list string) (v : string) : bool :=
  existsb (String.eqb v) s.
Definition Set_add (s : list string) (v : string) : list string :=
  if Set_has s v then s else s ++ [v].

(** [arr.map((v, idx) => f v idx)]. *)
Fixpoint mapi_from {A B : Type} (f : A -> nat -> B) (idx : nat) (l : list A)
  : list B :=
  match l with
  | [] => []
  | a :: l' => f a idx :: mapi_from f (S idx) l'
  end.
Definition mapi {A B : Type} (f : A -> nat -> B) (l : list A) : list B :=
  mapi_from f 0 l.

Definition nodeOf (name : string) (idx : nat) : INode :=
  {| id := name;
     title := name;
     type := "empty";
     x := (Z.of_nat idx mod 5) * 200 + 100;
     y := (Z.of_nat idx / 5) * 150 + 100 |}.

Definition edgeOf (p : string * string) : IEdge :=
  let '(from, to) := p in
  {| source := from; target := to; type' := "emptyEdge" |}.

Definition nodeSetOf (pairs : list (string * string)) : list string :=
  fold_left (fun nodeSet '(from, to) => Set_add (Set_add nodeSet from) to)
            pairs [].

(** The variable [pairs] after the loop, and [parseGraphInput].  The
    result is [None] only if the loop runs out of fuel, which it never
    does ([matchedPairs_total]). *)
Definition matchedPairs (input : string) : option (list (string * string)) :=
  execLoop (S (String.length input)) (chars input) [].

Definition parseGraphInput (input : string) : option graph :=
  match matchedPairs input with
  | None => None
  | Some pairs =>
      let nodeSet := nodeSetOf pairs in
      Some {| nodes := mapi nodeOf nodeSet;
              edges := map edgeOf pairs |}
  end.

End Graph.

(* ================================================================= *)
(** ** JavaScript values of type [any] *)

Module Js.
Import JsString.

(** What a call to a collaborator gives: a value, or an exception
    (a rejected promise).  An exception is kept as the text
    [String(err)] the source puts in its log entries. *)
Inductive result (A : Type) : Type :=
| Ok (a : A)
| Err (e : string).
Arguments Ok {A} a.
Arguments Err {A} e.

(** A [number], a double: [NaN], an integer ([Num z], for both zeros
    when [z] is [0]), an infinity, or [m / 2^k] with a fractional
    part. *)
Inductive number : Type :=
| NaN
| Num (z : Z)
| Infinity (negative : bool)
| Dyadic (m : Z) (k : positive).

(** The double nearest to the integer [z], ties to the even
    significand: [z] itself below [2^53], a multiple of
    [2^(e - 52)] when [2^e <= |z| < 2^(e + 1)].  (The doubles end at [2^1024];
    what is rounded here stays below.) *)
Definition roundDouble (z : Z) : Z :=
  let a := Z.abs z in
  if (a <? 2 ^ 53)%Z then z
  else
    let ulp := (2 ^ (Z.log2 a - 52))%Z in
    let q := (a / ulp)%Z in
    let r := (a mod ulp)%Z in
    let q' := if (2 * r <? ulp)%Z then q
              else if (ulp <? 2 * r)%Z then (q + 1)%Z
              else if Z.even q then q else (q + 1)%Z in
    (Z.sgn z * (q' * ulp))%Z.

#[local] Set Warnings "-register-all".
Inductive JsVal : Type :=
| VUndefined
| VNull
| VBool (b : bool)
| VNumber (n : number)
| VBigInt (z : Z)
| VString (s : string)
| VArray (elems : list JsVal)
| VObject (props : list (string * JsVal)).

Fixpoint lookupProp (props : list (string * JsVal)) (key : string) : JsVal :=
  match props with
  | [] => VUndefined
  | (k, v) :: props' => if String.eqb k key then v else lookupProp props' key
  end.

(** [v.key], for the property names the source reads (none of them is
    [length] or an index): a [TypeError] on [null] and [undefined],
    [undefined] on the other primitives and on arrays. *)
Definition getProp (v : JsVal) (key : string) : result JsVal :=
  match v with
  | VUndefined =>
      Err ("TypeError: Cannot read properties of undefined (reading '"
             +++ key +++ "')")
  | VNull =>
      Err ("TypeError: Cannot read properties of null (reading '"
             +++ key +++ "')")
  | VObject props => Ok (lookupProp props key)
  | _ => Ok VUndefined
  end.

Definition isTruthy (v : JsVal) : bool :=
  match v with
  | VUndefined | VNull => false
  | VBool b => b
  | VNumber NaN => false
  | VNumber (Num z) => negb (Z.eqb z 0)
  | VNumber (Infinity _) => true
  | VNumber (Dyadic m _) => negb (Z.eqb m 0)
  | VBigInt z => negb (Z.eqb z 0)
  | VString s => truthy s
  | VArray _ | VObject _ => true
  end.

(** [v === s] for a string literal [s]. *)
Definition strictEqString (v : JsVal) (s : string) : bool :=
  match v with
  | VString s' => String.eqb s' s
  | _ => false
  end.

(** [Array.isArray(v)]. *)
Definition isArray (v : JsVal) : bool :=
  match v with VArray _ => true | _ => false end.

Definition ofZ (z : Z) : string :=
  DecimalString.NilZero.string_of_int (Z.to_int z).

Fixpoint join (sep : string) (l : list string) : string :=
  match l with
  | [] => ""
  | [a] => a
  | a :: l' => a +++ sep +++ join sep l'
  end.

(** An object created by [JSON.parse] has the own property [key]. *)
Definition hasOwn (props : list (string * JsVal)) (key : string) : bool :=
  existsb (fun kv => String.eqb (fst kv) key) props.

(** [String(x)] for [x : string | null]. *)
Definition String_ (x : option string) : string :=
  match x with Some s => s | None => "null" end.

(** Truthiness of [x : string | null]. *)
Definition truthyOpt (x : option string) : bool :=
  match x with Some s => truthy s | None => false end.

End Js.

(* ================================================================= *)
(** ** The lookup orchestrator *)

Module Lookup.
Import JsString Js.

(** *** UI state *)

Inductive LogLevel : Type := info | error.

Record LogEntry : Type := mkLog
  { time : string; level : LogLevel; text : string }.

Record Transaction : Type := mkTransaction
  { hash : JsVal;
    from : JsVal;
    to : JsVal;
    value : string;
    blockNumber : number;
    timestamp : number }.

Module Profile.
(** The profile object; an unset field is [None]. *)
Record t : Type := mk
  { name : option string;
    avatar : option string;
    description : option string;
    url : option string;
    address : option string;
    resolver : option string;
    reverse : option string;
    balance : option string }.

(** [{}] *)
Definition empty : t := mk None None None None None None None None.

(** [p ?? {}] *)
Definition orEmpty (p : option t) : t :=
  match p with Some q => q | None => empty end.

Definition setName (v : option string) (p : t) : t :=
  mk v (avatar p) (description p) (url p) (address p) (resolver p)
     (reverse p) (balance p).
Definition setAvatar (v : option string) (p : t) : t :=
  mk (name p) v (description p) (url p) (address p) (resolver p)
     (reverse p) (balance p).
Definition setDescription (v : option string) (p : t) : t :=
  mk (name p) (avatar p) v (url p) (address p) (resolver p)
     (reverse p) (balance p).
Definition setUrl (v : option string) (p : t) : t :=
  mk (name p) (avatar p) (description p) v (address p) (resolver p)
     (reverse p) (balance p).
Definition setAddress (v : option string) (p : t) : t :=
  mk (name p) (avatar p) (description p) (url p) v (resolver p)
     (reverse p) (balance p).
Definition setResolver (v : option string) (p : t) : t :=
  mk (name p) (avatar p) (description p) (url p) (address p) v
     (reverse p) (balance p).
Definition setReverse (v : option string) (p : t) : t :=
  mk (name p) (avatar p) (description p) (url p) (address p) (resolver p)
     v (balance p).
Definition setBalance (v : option string) (p : t) : t :=
  mk (name p) (avatar p) (description p) (url p) (address p) (resolver p)
     (reverse p) v.
End Profile.

(** A request sent to a collaborator: the JSON-RPC client, a resolver
    obtained from it, or the HTTP client. *)
Inductive Request : Type :=
| ReqResolveName (name : string)
| ReqGetBalance (address : string)
| ReqGetCode (address : string)
| ReqGetTransactionCount (address : string)
| ReqLookupAddress (address : string)
| ReqGetResolver (name : string)
| ReqGetContentHash
| ReqGetText (key : string)
| ReqGetAddress (coin : option nat)
| ReqAddr (coin : string)
| ReqFetch (url : string)
| ReqJson.

(** The component's state ([useState]), with the requests sent so far,
    newest first, kept on the side.  A state setter takes effect when it
    is called: the lookup is the only writer, and every setter that
    depends on the old value is given an updater function. *)
Record State : Type := mkState
  { logs : list LogEntry;
    profile : option Profile.t;
    transactions : list Transaction;
    loading : bool;
    showModal : bool;
    requests : list Request }.

(** *** Collaborators *)

Module Resolver.
(** A resolver ([any] in the source).  A method that may be absent
    ([typeof r.m === 'function'] is tested) is an [option]; a call of
    [getText] on a resolver without it throws, which is a behaviour of
    [getText] here. *)
Record t : Type := mk
  { address : option string;
    getContentHash : option (result (option string));
    getText : string -> result (option string);
    getAddress : option (option nat -> result (option string));
    addr : option (string -> result (option string)) }.
End Resolver.

Record Provider : Type := mkProvider
  { resolveName : string -> result (option string);
    getBalance : string -> result Z;
    getCode : string -> result string;
    getTransactionCount : string -> result nat;
    lookupAddress : string -> result (option string);
    getResolver : string -> result (option Resolver.t) }.

Record Response : Type := mkResponse { json : result JsVal }.

(** Everything outside the component: the [ethers] library, [fetch],
    the build-time environment, the clock and two operations of the
    engine on doubles.  [now k] is the time [new Date().toISOString()]
    gives when the log holds [k] entries; [Number_toString n] is the
    text of the number [n]; [parseIntOf s] is what [parseInt] makes of
    the text [s], rounded to a double. *)
Record World : Type := mkWorld
  { JsonRpcProvider : string -> result Provider;
    isAddress : string -> bool;
    namehash : string -> result string;
    formatEther : JsVal -> result string;
    fetch : string -> result Response;
    VITE_ETHERSCAN_API_KEY : option string;
    now : nat -> string;
    Number_toString : number -> string;
    parseIntOf : string -> number }.

(** *** Computations *)

(** How a statement completes: normally, by [return], or by [throw]. *)
Inductive completion (A : Type) : Type :=
| Normal (a : A)
| Return
| Throw (e : string).
Arguments Normal {A} a.
Arguments Return {A}.
Arguments Throw {A} e.

Definition M (A : Type) : Type := State -> completion A * State.

Definition ret {A : Type} (a : A) : M A := fun st => (Normal a, st).

Definition bind {A B : Type} (m : M A) (f : A -> M B) : M B :=
  fun st =>
    match m st with
    | (Normal a, st') => f a st'
    | (Return, st') => (Return, st')
    | (Throw e, st') => (Throw e, st')
    end.

Definition return_ {A : Type} : M A := fun st => (Return, st).
Definition throw {A : Type} (e : string) : M A := fun st => (Throw e, st).

(** [try { m } catch (e) { h e }] *)
Definition tryCatch {A : Type} (m : M A) (h : string -> M A) : M A :=
  fun st =>
    match m st with
    | (Throw e, st') => h e st'
    | r => r
    end.

(** [try { m } finally { f }], for an [f] that completes normally. *)
Definition tryFinally {A : Type} (m : M A) (f : M unit) : M A :=
  fun st =>
    match m st with
    | (c, st') =>
        match f st' with
        | (Normal _, st'') => (c, st'')
        | (Return, st'') => (Return, st'')
        | (Throw e, st'') => (Throw e, st'')
        end
    end.

(** The body of a function: [return] ends the function normally. *)
Definition function (body : M unit) : M unit :=
  fun st =>
    match body st with
    | (Return, st') => (Normal tt, st')
    | r => r
    end.

(** A value computed by library code that may throw. *)
Definition lift {A : Type} (r : result A) : M A :=
  fun st =>
    match r with
    | Ok a => (Normal a, st)
    | Err e => (Throw e, st)
    end.

(** [await] of a request to a collaborator. *)
Definition await {A : Type} (q : Request) (r : result A) : M A :=
  fun st =>
    let st' := mkState (logs st) (profile st) (transactions st) (loading st)
                       (showModal st) (q :: requests st) in
    match r with
    | Ok a => (Normal a, st')
    | Err e => (Throw e, st')
    end.

(** [for (const x of l) body x] *)
Fixpoint forOf {A : Type} (l : list A) (body : A -> M unit) : M unit :=
  match l with
  | [] => ret tt
  | a :: l' => bind (body a) (fun _ => forOf l' body)
  end.

(** [l.map(f)] for an [f] that may throw. *)
Fixpoint mapResult {A B : Type} (f : A -> result B) (l : list A)
  : result (list B) :=
  match l with
  | [] => Ok []
  | a :: l' =>
      match f a with
      | Err e => Err e
      | Ok b => match mapResult f l' with
                | Err e => Err e
                | Ok bs => Ok (b :: bs)
                end
      end
  end.

Definition setLoading (b : bool) : M unit :=
  fun st => (Normal tt,
             mkState (logs st) (profile st) (transactions st) b
                     (showModal st) (requests st)).

Definition setShowModal (b : bool) : M unit :=
  fun st => (Normal tt,
             mkState (logs st) (profile st) (transactions st) (loading st)
                     b (requests st)).

(** [setProfile(f)], with [setProfile(null)] as [setProfile (fun _ => None)]. *)
Definition setProfile (f : option Profile.t -> option Profile.t) : M unit :=
  fun st => (Normal tt,
             mkState (logs st) (f (profile st)) (transactions st)
                     (loading st) (showModal st) (requests st)).

Definition setTransactions (txs : list Transaction) : M unit :=
  fun st => (Normal tt,
             mkState (logs st) (profile st) txs (loading st)
                     (showModal st) (requests st)).

Notation "x <- m ;; k" := (bind m (fun x => k))
  (at level 100, m at next level, right associativity).
Notation "m ;; k" := (bind m (fun _ => k))
  (at level 100, right associativity).

Section WithWorld.
Variable w : World.

Definition addLog (lv : LogLevel) (txt : string) : M unit :=
  fun st =>
    (Normal tt,
     mkState ({| time := now w (List.length (logs st)); level := lv; text := txt |}
                :: logs st)
             (profile st) (transactions st) (loading st) (showModal st)
             (requests st)).

(** Step 2: the input is an address, or is resolved as a name.  The
    value is the variable [resolvedAddress] after the step. *)
Definition resolveAddress (provider : Provider) (name : string)
  : M (option string) :=
  if isAddress w name then
    addLog info ("Input is an address: " +++ name);;
    ret (Some name)
  else
    tryCatch
      (resolvedAddress <-
         await (ReqResolveName name) (resolveName provider name);;
       addLog info ("Resolved address: " +++ String_ resolvedAddress);;
       ret resolvedAddress)
      (fun resolveErr =>
         addLog error ("resolveName failed: " +++ resolveErr);;
         ret None).

(** Step 3. *)
Definition logNamehash (name : string) : M unit :=
  tryCatch
    (nh <- lift (namehash w name);;
     addLog info ("namehash: " +++ nh))
    (fun nhErr => ret tt).

(** Step 4: the short-circuit.  Past the guard the variable is a
    non-empty string. *)
Definition narrowed (x : option string) : string :=
  match x with Some s => s | None => "" end.

Definition requireAddress (name : string) (resolvedAddress : option string)
  : M string :=
  if negb (truthyOpt resolvedAddress) then
    addLog error ("No address available for " +++ name);;
    setProfile (fun _ => None);;
    return_
  else ret (narrowed resolvedAddress).

(** Step 5. *)
Definition fetchBalance (provider : Provider) (resolvedAddress : string)
  : M unit :=
  tryCatch
    (balance <-
       await (ReqGetBalance resolvedAddress)
             (getBalance provider resolvedAddress);;
     ether <- lift (formatEther w (VBigInt balance));;
     let balStr := ether +++ " ETH" in
     addLog info ("balance: " +++ balStr);;
     setProfile (fun p =>
       Some (Profile.setBalance (Some balStr)
               (Profile.setAddress (Some resolvedAddress)
                  (Profile.orEmpty p)))))
    (fun balErr => addLog error ("getBalance failed: " +++ balErr)).

(** Step 6. *)
Definition fetchCode (provider : Provider) (resolvedAddress : string)
  : M unit :=
  tryCatch
    (code <-
       await (ReqGetCode resolvedAddress) (getCode provider resolvedAddress);;
     addLog info ("code length: "
                    +++ ofNat (if truthy code then String.length code else 0)))
    (fun codeErr => addLog error ("getCode failed: " +++ codeErr)).

(** Step 7. *)
Definition fetchTransactionCount (provider : Provider)
           (resolvedAddress : string) : M unit :=
  tryCatch
    (txCount <-
       await (ReqGetTransactionCount resolvedAddress)
             (getTransactionCount provider resolvedAddress);;
     addLog info ("transactionCount: " +++ ofNat txCount))
    (fun txErr => addLog error ("getTransactionCount failed: " +++ txErr)).

(** Step 8. *)
Definition reverseLookup (provider : Provider) (resolvedAddress : string)
  : M unit :=
  tryCatch
    (reverse <-
       await (ReqLookupAddress resolvedAddress)
             (lookupAddress provider resolvedAddress);;
     addLog info ("reverse name: " +++ String_ reverse);;
     if truthyOpt reverse then
       setProfile (fun p =>
         Some (Profile.setReverse reverse (Profile.orEmpty p)))
     else ret tt)
    (fun revErr => addLog error ("lookupAddress failed: " +++ revErr)).

(** Step 9.  The value is the variable [resolver] after the step. *)
Definition obtainResolver (provider : Provider) (name : string)
  : M (option Resolver.t) :=
  tryCatch
    (resolver <-
       await (ReqGetResolver name) (getResolver provider name);;
     match resolver with
     | None => addLog info ("No resolver found for " +++ name)
     | Some r =>
         addLog info ("resolver address: "
                        +++ match Resolver.address r with
                            | Some a => a
                            | None => "unknown"
                            end);;
         setProfile (fun p =>
           Some (Profile.setResolver (Resolver.address r)
                   (Profile.orEmpty p)))
     end;;
     ret resolver)
    (fun resErr =>
       addLog error ("getResolver failed: " +++ resErr);;
       ret None).

(** Step 10a. *)
Definition fetchContentHash (resolver : Resolver.t) : M unit :=
  tryCatch
    (match Resolver.getContentHash resolver with
     | Some call =>
         ch <- await ReqGetContentHash call;;
         addLog info ("contentHash: " +++ String_ ch)
     | None => addLog info "getContentHash not available on resolver"
     end)
    (fun chErr => addLog error ("getContentHash failed: " +++ chErr)).

(** Step 10b, the four text records. *)
Definition fetchName (resolver : Resolver.t) : M unit :=
  tryCatch
    (profName <- await (ReqGetText "name") (Resolver.getText resolver "name");;
     if truthyOpt profName then
       addLog info ("profile.name = " +++ String_ profName);;
       setProfile (fun p =>
         Some (Profile.setName (Some (String_ profName)) (Profile.orEmpty p)))
     else ret tt)
    (fun pnErr => ret tt).

Definition fetchUrl (resolver : Resolver.t) : M unit :=
  tryCatch
    (foundUrl <- await (ReqGetText "url") (Resolver.getText resolver "url");;
     if truthyOpt foundUrl then
       addLog info ("profile.url = " +++ String_ foundUrl);;
       setProfile (fun p =>
         Some (Profile.setUrl (Some (String_ foundUrl)) (Profile.orEmpty p)))
     else ret tt)
    (fun urlErr => ret tt).

Definition fetchAvatar (resolver : Resolver.t) : M unit :=
  tryCatch
    (avatar <-
       await (ReqGetText "avatar") (Resolver.getText resolver "avatar");;
     if truthyOpt avatar then
       let avatarUrl := String_ avatar in
       let avatarUrl :=
         if startsWith avatarUrl "ipfs://"
         then replace avatarUrl "ipfs://" "https://ipfs.io/ipfs/"
         else avatarUrl in
       addLog info ("profile.avatar = " +++ avatarUrl);;
       setProfile (fun p =>
         Some (Profile.setAvatar (Some avatarUrl) (Profile.orEmpty p)))
     else ret tt)
    (fun avErr => ret tt).

Definition fetchDescription (resolver : Resolver.t) : M unit :=
  tryCatch
    (desc <-
       await (ReqGetText "description")
             (Resolver.getText resolver "description");;
     if truthyOpt desc then
       addLog info ("profile.description = " +++ String_ desc);;
       setProfile (fun p =>
         Some (Profile.setDescription (Some (String_ desc))
                 (Profile.orEmpty p)))
     else ret tt)
    (fun descErr => ret tt).

Definition fetchProfileFields (resolver : Resolver.t) : M unit :=
  tryCatch
    (fetchName resolver;;
     fetchUrl resolver;;
     fetchAvatar resolver;;
     fetchDescription resolver)
    (fun profileErr =>
       addLog error ("profile fields fetch failed: " +++ profileErr)).

(** Step 10c. *)
Definition fetchResolverAddress (resolver : Resolver.t) : M unit :=
  tryCatch
    (match Resolver.getAddress resolver with
     | Some getAddress =>
         ethAddr <- await (ReqGetAddress None) (getAddress None);;
         addLog info ("resolver.getAddress() => " +++ String_ ethAddr)
     | None =>
         match Resolver.addr resolver with
         | Some addr =>
             ethAddr <- await (ReqAddr "60") (addr "60");;
             addLog info ("resolver.addr(60) => " +++ String_ ethAddr)
         | None => addLog info "resolver address lookup API not available"
         end
     end)
    (fun addrErr =>
       addLog error ("resolver address lookup failed: " +++ addrErr)).

(** Step 10d. *)
Definition coinTypes : list nat := [60; 61].

Definition fetchCoinAddress (resolver : Resolver.t) (coin : nat) : M unit :=
  tryCatch
    (match Resolver.getAddress resolver with
     | Some getAddress =>
         a <- await (ReqGetAddress (Some coin)) (getAddress (Some coin));;
         addLog info ("resolver.getAddress(" +++ ofNat coin +++ ") => "
                        +++ String_ a)
     | None => ret tt
     end)
    (fun coinErr =>
       addLog error ("resolver.getAddress(" +++ ofNat coin +++ ") failed: "
                       +++ coinErr)).

(** Step 10: [if (resolver) { ... }]. *)
Definition resolverRecords (resolver : option Resolver.t) : M unit :=
  match resolver with
  | Some r =>
      fetchContentHash r;;
      fetchProfileFields r;;
      fetchResolverAddress r;;
      forOf coinTypes (fetchCoinAddress r)
  | None => ret tt
  end.

(** [String(v)], and the conversion a template literal applies.  An
    array joins the texts of its elements, [null] and [undefined] as
    the empty text; an object that has an own [toString], which after
    [JSON.parse] is never a function, cannot be converted (the wording
    of the [TypeError] is V8's). *)
Fixpoint ToString (v : JsVal) : result string :=
  match v with
  | VUndefined => Ok "undefined"
  | VNull => Ok "null"
  | VBool true => Ok "true"
  | VBool false => Ok "false"
  | VNumber n => Ok (Number_toString w n)
  | VBigInt z => Ok (ofZ z)
  | VString s => Ok s
  | VArray elems =>
      (fix joinElems (l : list JsVal) : result string :=
         match l with
         | [] => Ok ""
         | e :: l' =>
             match match e with
                   | VUndefined | VNull => Ok ""
                   | _ => ToString e
                   end with
             | Err x => Err x
             | Ok s =>
                 match l' with
                 | [] => Ok s
                 | _ :: _ =>
                     match joinElems l' with
                     | Err x => Err x
                     | Ok r => Ok (s +++ "," +++ r)
                     end
                 end
             end
         end) elems
  | VObject props =>
      if hasOwn props "toString"
      then Err "TypeError: Cannot convert object to primitive value"
      else Ok "[object Object]"
  end.

(** [parseInt(v)] without a radix: the argument is converted to a
    text, which is parsed. *)
Definition parseInt (v : JsVal) : result number :=
  match ToString v with
  | Err e => Err e
  | Ok s => Ok (parseIntOf w s)
  end.

(** Step 11. *)
Definition toTransaction (tx : JsVal) : result Transaction :=
  match getProp tx "hash" with Err e => Err e | Ok hash =>
  match getProp tx "from" with Err e => Err e | Ok from =>
  match getProp tx "to" with Err e => Err e | Ok to =>
  match getProp tx "value" with Err e => Err e | Ok value =>
  match formatEther w value with Err e => Err e | Ok ether =>
  match getProp tx "blockNumber" with Err e => Err e | Ok blockNumber =>
  match parseInt blockNumber with Err e => Err e | Ok block =>
  match getProp tx "timeStamp" with Err e => Err e | Ok timeStamp =>
  match parseInt timeStamp with Err e => Err e | Ok time =>
    Ok {| hash := hash;
          from := from;
          to := to;
          value := ether;
          blockNumber := block;
          timestamp := time |}
  end end end end end end end end end.

Definition apiKey : string :=
  if truthyOpt (VITE_ETHERSCAN_API_KEY w)
  then narrowed (VITE_ETHERSCAN_API_KEY w)
  else "YourApiKeyToken".

Definition etherscanUrl (resolvedAddress : string) : string :=
  "https://api.etherscan.io/api?module=account&action=txlist&address="
    +++ resolvedAddress
    +++ "&startblock=0&endblock=99999999&page=1&offset=10&sort=desc&apikey="
    +++ apiKey.

(** [data.status === '1' && data.result && Array.isArray(data.result)] *)
Definition isTxList (data : JsVal) : M bool :=
  status <- lift (getProp data "status");;
  if strictEqString status "1" then
    result <- lift (getProp data "result");;
    if isTruthy result then
      result' <- lift (getProp data "result");;
      ret (isArray result')
    else ret false
  else ret false.

Definition fetchTransactions (resolvedAddress : string) : M unit :=
  if truthy resolvedAddress then
    tryCatch
      (addLog info "Fetching recent transactions from Etherscan...";;
       response <-
         await (ReqFetch (etherscanUrl resolvedAddress))
               (fetch w (etherscanUrl resolvedAddress));;
       data <- await ReqJson (json response);;
       ok <- isTxList data;;
       if ok then
         result <- lift (getProp data "result");;
         txsWithDetails <-
           match result with
           | VArray elems => lift (mapResult toTransaction elems)
           | _ => throw "TypeError: data.result.map is not a function"
           end;;
         setTransactions txsWithDetails;;
         addLog info ("Found " +++ ofNat (List.length txsWithDetails)
                        +++ " recent transactions")
       else
         message <- lift (getProp data "message");;
         text <- lift (ToString (if isTruthy message then message
                                 else VString "Unknown error"));;
         addLog info ("No transactions found or Etherscan API error: "
                        +++ text);;
         setTransactions [])
      (fun txHistoryErr =>
         addLog error ("Failed to fetch transaction history: "
                         +++ txHistoryErr);;
         setTransactions [])
  else ret tt.

(** The statements before the outer [try]. *)
Definition lookupPrelude (name : string) : M unit :=
  setLoading true;;
  setProfile (fun _ => None);;
  setTransactions [];;
  setShowModal true;;
  addLog info ("Resolving ENS name: " +++ name).

(** The block of the outer [try]. *)
Definition lookupBody (name : string) : M unit :=
  provider <- lift (JsonRpcProvider w "https://eth.llamarpc.com");;
  resolvedAddress <- resolveAddress provider name;;
  logNamehash name;;
  resolvedAddress <- requireAddress name resolvedAddress;;
  fetchBalance provider resolvedAddress;;
  fetchCode provider resolvedAddress;;
  fetchTransactionCount provider resolvedAddress;;
  reverseLookup provider resolvedAddress;;
  resolver <- obtainResolver provider name;;
  resolverRecords resolver;;
  fetchTransactions resolvedAddress.

Definition lookupGuarded (name : string) : M unit :=
  tryFinally
    (tryCatch (lookupBody name)
              (fun err => addLog error ("Lookup failed: " +++ err)))
    (setLoading false).

Definition doLookup (name : string) : M unit :=
  function
    (if negb (truthy name) then return_
     else lookupPrelude name;; lookupGuarded name).

End WithWorld.

End Lookup.

(* ================================================================= *)
(** ** What the graph parser is compared with *)

Module GraphSpec.
Import JsString Graph.

(** [s] starts with a pair [(t1,t2)] followed by [rest]: both tokens are
    non-empty, the first holds no character of [ex1] and the second no
    character of [ex2]. *)
Definition pairAt (ex1 ex2 : list ascii) (s t1 t2 rest : list ascii) : Prop :=
  s = "("%char :: t1 ++ ","%char :: t2 ++ ")"%char :: rest
  /\ t1 <> [] /\ (forall c, In c ex1 -> ~ In c t1)
  /\ t2 <> [] /\ (forall c, In c ex2 -> ~ In c t2).

(** The pairs found by a scan from left to right: at each position the
    pair that starts there is taken and the scan goes on after it;
    where no pair starts, the scan moves one character on. *)
Inductive Scanned (ex1 ex2 : list ascii)
  : list ascii -> list (string * string) -> Prop :=
| Scanned_end : Scanned ex1 ex2 [] []
| Scanned_skip c s ps :
    (forall t1 t2 rest, ~ pairAt ex1 ex2 (c :: s) t1 t2 rest) ->
    Scanned ex1 ex2 s ps ->
    Scanned ex1 ex2 (c :: s) ps
| Scanned_pair s t1 t2 rest ps :
    pairAt ex1 ex2 s t1 t2 rest ->
    Scanned ex1 ex2 rest ps ->
    Scanned ex1 ex2 s
            ((ofChars (trimChars t1), ofChars (trimChars t2)) :: ps).

(** The tokens as the source's expression takes them: the first up to
    the first comma, the second up to the first close-parenthesis. *)
Definition ScannedByCode := Scanned [","%char] [")"%char].

(** The tokens as runs of characters that are neither a comma nor a
    close-parenthesis. *)
Definition ScannedAsStated :=
  Scanned [","%char; ")"%char] [","%char; ")"%char].

Definition tokens (pairs : list (string * string)) : list string :=
  flat_map (fun p => [fst p; snd p]) pairs.

(** The elements of [l] added to the set [acc] one by one. *)
Definition addAll (acc l : list string) : list string :=
  fold_left Set_add l acc.

(** The distinct elements of a list, each at its first occurrence. *)
Fixpoint firstSeen (l : list string) : list string :=
  match l with
  | [] => []
  | a :: l' => a :: filter (fun b => negb (String.eqb b a)) (firstSeen l')
  end.

(** The text before the first occurrence of [c], and the text after it. *)
Fixpoint cut (c : ascii) (s : list ascii) : option (list ascii * list ascii) :=
  match s with
  | [] => None
  | x :: s' =>
      if Ascii.eqb x c then Some ([], s')
      else match cut c s' with
           | Some (run, rest) => Some (x :: run, rest)
           | None => None
           end
  end.

(** A continuation that needs the character [c] next. *)
Definition needs {R : Type} (c : ascii)
           (k : list ascii -> list ascii -> option R) : Prop :=
  forall g r, (forall r', r <> c :: r') -> k g r = None.

(** The pair that starts at the head of [s], tokens cut at the first
    comma and at the first close-parenthesis. *)
Definition pairHere (s : list ascii)
  : option (list ascii * list ascii * list ascii) :=
  match s with
  | "("%char :: s1 =>
      match cut ","%char s1 with
      | Some (x :: t1, s2) =>
          match cut ")"%char s2 with
          | Some (y :: t2, rest) => Some (x :: t1, y :: t2, rest)
          | _ => None
          end
      | _ => None
      end
  | _ => None
  end.

Definition endpoints (e : IEdge) : string * string := (source e, target e).

(** The place of the node at 0-based position [i] on the grid. *)
Definition gridPosition (i : nat) : Z * Z :=
  ((Z.of_nat i mod 5) * 200 + 100, (Z.of_nat i / 5) * 150 + 100)%Z.

Definition position (n : INode) : Z * Z := (x n, y n).

End GraphSpec.

(* ================================================================= *)
(** ** What the lookup orchestrator is compared with *)

Module LookupSpec.
Import JsString Js Lookup.

Definition rpcUrl : string := "https://eth.llamarpc.com".

(** The final state of a computation. *)
Definition after {A : Type} (m : M A) (st : State) : State := snd (m st).

(** The computation never ends by [return]; with [mayThrow = false] it
    never throws either, so it ends normally. *)
Definition yields {A : Type} (mayThrow : bool) (m : M A) : Prop :=
  forall st, match fst (m st) with
             | Normal _ => True
             | Return => False
             | Throw _ => mayThrow = true
             end.

Section Keeps.
(** A relation between the state before and the state after that
    holds across sequences of steps. *)
Variable R : State -> State -> Prop.

Definition keeps {A : Type} (m : M A) : Prop :=
  forall st, R st (after m st).
End Keeps.

(** The requests a step sends all satisfy [P]. *)
Definition sendsOnly (P : Request -> Prop) (st st' : State) : Prop :=
  exists sent, requests st' = sent ++ requests st /\ Forall P sent.

Definition notResolveName (q : Request) : Prop :=
  match q with ReqResolveName _ => False | _ => True end.

(** The step leaves the profile as it is. *)
Definition sameProfile (st st' : State) : Prop := profile st' = profile st.

(** The step leaves the four text fields of the profile unset. *)
Definition textUnset (p : option Profile.t) : Prop :=
  Profile.name (Profile.orEmpty p) = None
  /\ Profile.url (Profile.orEmpty p) = None
  /\ Profile.avatar (Profile.orEmpty p) = None
  /\ Profile.description (Profile.orEmpty p) = None.

Definition keepsTextUnset (st st' : State) : Prop :=
  textUnset (profile st) -> textUnset (profile st').

(** The lookup resolves no address for [name]: the name is not an
    address, and its resolution fails or gives nothing. *)
Definition resolvesNoAddress (w : World) (name : string) : Prop :=
  exists provider,
    JsonRpcProvider w rpcUrl = Ok provider
    /\ isAddress w name = false
    /\ match resolveName provider name with
       | Ok r => truthyOpt r = false
       | Err _ => True
       end.

(** The lookup resolves the address [address] for [name]. *)
Definition resolvesAddress (w : World) (provider : Provider)
           (name address : string) : Prop :=
  JsonRpcProvider w rpcUrl = Ok provider
  /\ address <> ""
  /\ (if isAddress w name then address = name
      else resolveName provider name = Ok (Some address)).

Definition noAddressText (name : string) : string :=
  "No address available for " +++ name.

(** What a text record gives the profile: its value when the fetch
    succeeds with a non-empty text. *)
Definition textRecord (r : Resolver.t) (key : string) : option string :=
  match Resolver.getText r key with
  | Ok (Some v) => if truthy v then Some v else None
  | _ => None
  end.

(** An [ipfs://] prefix replaced by the gateway prefix. *)
Definition normalizeAvatar (v : string) : string :=
  if startsWith v "ipfs://" then "https://ipfs.io/ipfs/" +++ drop 7 v else v.

(** A field after a merge of [new]. *)
Definition merged (old new : option string) : option string :=
  match new with Some v => Some v | None => old end.

(** The log entry of a merged text record. *)
Definition textLog (key : string) (v : option string)
  : list (LogLevel * string) :=
  match v with
  | Some s => [(info, "profile." +++ key +++ " = " +++ s)]
  | None => []
  end.

Definition levelText (e : LogEntry) : LogLevel * string := (level e, text e).

(** The state after the fetch of the text record [key] that gave [v]:
    the request is sent; a value is logged and merged by [set]. *)
Definition textStep (w : World) (key : string)
           (set : option string -> Profile.t -> Profile.t)
           (v : option string) (st : State) : State :=
  match v with
  | Some s =>
      mkState (mkLog (now w (List.length (logs st))) info
                     ("profile." +++ key +++ " = " +++ s) :: logs st)
              (Some (set (Some s) (Profile.orEmpty (profile st))))
              (transactions st) (loading st) (showModal st)
              (ReqGetText key :: requests st)
  | None =>
      mkState (logs st) (profile st) (transactions st) (loading st)
              (showModal st) (ReqGetText key :: requests st)
  end.

(** The profile after the four text records of [r] are merged. *)
Definition mergeText (r : Resolver.t) (p : option Profile.t)
  : option Profile.t :=
  let p0 := Profile.orEmpty p in
  match textRecord r "name", textRecord r "url",
        textRecord r "avatar", textRecord r "description" with
  | None, None, None, None => p
  | n, u, a, d =>
      Some (Profile.mk
              (merged (Profile.name p0) n)
              (merged (Profile.avatar p0) (option_map normalizeAvatar a))
              (merged (Profile.description p0) d)
              (merged (Profile.url p0) u)
              (Profile.address p0) (Profile.resolver p0)
              (Profile.reverse p0) (Profile.balance p0))
  end.

(** The raw record [raw] becomes the transaction [tx]: its fields are
    read, the value is converted to ether, block number and time stamp
    are parsed. *)
Definition mapsTo (w : World) (raw : JsVal) (tx : Transaction) : Prop :=
  getProp raw "hash" = Ok (hash tx)
  /\ getProp raw "from" = Ok (from tx)
  /\ getProp raw "to" = Ok (to tx)
  /\ (exists v, getProp raw "value" = Ok v
                /\ formatEther w v = Ok (value tx))
  /\ (exists b, getProp raw "blockNumber" = Ok b
                /\ parseInt w b = Ok (blockNumber tx))
  /\ (exists t, getProp raw "timeStamp" = Ok t
                /\ parseInt w t = Ok (timestamp tx)).

(** The HTTP collaborator answers with the decoded body [data]. *)
Definition answers (w : World) (address : string) (data : JsVal) : Prop :=
  exists response,
    fetch w (etherscanUrl w address) = Ok response
    /\ json response = Ok data.

(** The message the body carries, as the source reads it:
    [data.message || 'Unknown error']. *)
Definition messageOf (message : JsVal) : JsVal :=
  if isTruthy message then message else VString "Unknown error".

(** The body [data] does not announce a list of transactions: its
    status is not ["1"] or its result is not an array. *)
Definition noTxList (data : JsVal) : Prop :=
  exists status result,
    getProp data "status" = Ok status
    /\ getProp data "result" = Ok result
    /\ (status <> VString "1" \/ isArray result = false).

(** The fetch of the transaction history throws [e]: in the
    transport, in the decoding of the body, in reading a body that is
    [null], in the conversion of a record, or in the conversion of the
    message of a body without a list to a text. *)
Definition txThrows (w : World) (address : string) (e : string) : Prop :=
  fetch w (etherscanUrl w address) = Err e
  \/ (exists response,
        fetch w (etherscanUrl w address) = Ok response
        /\ json response = Err e)
  \/ (exists data, answers w address data /\ getProp data "status" = Err e)
  \/ (exists data elems,
        answers w address data
        /\ getProp data "status" = Ok (VString "1")
        /\ getProp data "result" = Ok (VArray elems)
        /\ mapResult (toTransaction w) elems = Err e)
  \/ (exists data message,
        answers w address data
        /\ noTxList data
        /\ getProp data "message" = Ok message
        /\ ToString w (messageOf message) = Err e).

(** The newest log entry. *)
Definition newest (st : State) : option (LogLevel * string) :=
  match logs st with
  | e :: _ => Some (levelText e)
  | [] => None
  end.

(** The transaction-history claim as stated, on one response: with
    status ["1"] and an array result, every raw record has become a
    transaction and the entry logged is informational. *)
Definition txClaimAsStated (w : World) (address : string) (st : State) : Prop :=
  forall data elems,
    answers w address data ->
    getProp data "status" = Ok (VString "1") ->
    getProp data "result" = Ok (VArray elems) ->
    let st' := after (fetchTransactions w address) st in
    List.length (transactions st') = List.length elems
    /\ exists txt, newest st' = Some (info, txt).

End LookupSpec.

(* ================================================================= *)
(** ** Worlds and states for the examples *)

Module Sample.
Import JsString Js Lookup LookupSpec.

Definition someTime : string := "2025-01-01T00:00:00.000Z".

Definition vitalik : string := "0xd8dA6BF26964aF9D7eEd9e03E53415D37aA96045".

Definition isDigit (c : ascii) : bool :=
  let n := nat_of_ascii c in ((48 <=? n) && (n <=? 57))%nat.

Fixpoint stripZeros (l : list ascii) : list ascii :=
  match l with
  | "0"%char :: l' => stripZeros l'
  | _ => l
  end.

(** [l] with zeros in front, up to the length [n]. *)
Definition padLeft (n : nat) (l : list ascii) : list ascii :=
  repeat "0"%char (n - List.length l) ++ l.

Definition digitValue (radix : Z) (c : ascii) : option Z :=
  let n := Z.of_nat (nat_of_ascii c) in
  let d := if (48 <=? n)%Z && (n <=? 57)%Z then Some (n - 48)%Z
           else if (97 <=? n)%Z && (n <=? 122)%Z then Some (n - 87)%Z
           else if (65 <=? n)%Z && (n <=? 90)%Z then Some (n - 55)%Z
           else None in
  match d with
  | Some d' => if (d' <? radix)%Z then Some d' else None
  | None => None
  end.

(** The longest prefix of digits of the radix, as an integer. *)
Fixpoint parseDigits (radix : Z) (l : list ascii) (acc : option Z) : option Z :=
  match l with
  | [] => acc
  | c :: l' =>
      match digitValue radix c with
      | Some d =>
          parseDigits radix l'
            (Some (match acc with Some a => a * radix + d | None => d end)%Z)
      | None => acc
      end
  end.

(** [parseInt] on a text, without a radix: leading white space is
    dropped, then an optional sign, then [0x] or [0X] selects radix 16;
    the longest prefix of digits is read exactly and rounded to a
    double; no digit gives [NaN]. *)
Definition sampleParseInt (s : string) : number :=
  let l := trimStart (chars s) in
  let '(negative, l1) :=
    match l with
    | "-"%char :: r => (true, r)
    | "+"%char :: r => (false, r)
    | _ => (false, l)
    end in
  let '(radix, l2) :=
    match l1 with
    | "0"%char :: "x"%char :: r => (16%Z, r)
    | "0"%char :: "X"%char :: r => (16%Z, r)
    | _ => (10%Z, l1)
    end in
  match parseDigits radix l2 None with
  | Some z =>
      let d := roundDouble z in
      if (d <? 2 ^ 1024)%Z then Num (if negative then - d else d)
      else Infinity negative
  | None => NaN
  end.

(** [Number::toString] on the numbers of the sample bodies: integers
    below [10^21], printed as decimal digits. *)
Definition sampleNumberToString (n : number) : string :=
  match n with
  | NaN => "NaN"
  | Num z => ofZ z
  | Infinity false => "Infinity"
  | Infinity true => "-Infinity"
  | Dyadic _ _ => ""
  end.

(** The amount of wei a text of decimal digits stands for. *)
Definition weiOfDigits (s : string) : option Z :=
  parseDigits 10 (chars s) None.

(** [formatEther] on a non-negative amount of wei. *)
Definition etherOfWei (z : Z) : string :=
  let whole := (z / 10 ^ 18)%Z in
  let frac := (z mod 10 ^ 18)%Z in
  let digits := padLeft 18 (chars (ofZ frac)) in
  let digits := List.rev (stripZeros (List.rev digits)) in
  ofZ whole +++ "." +++ ofChars (match digits with [] => ["0"%char] | _ => digits end).

Definition sampleFormatEther (v : JsVal) : result string :=
  match v with
  | VBigInt z => if (0 <=? z)%Z then Ok (etherOfWei z)
                 else Err "TypeError: invalid BigNumberish value"
  | VString s =>
      if truthy s && forallb isDigit (chars s)
      then match weiOfDigits s with
           | Some z => Ok (etherOfWei z)
           | None => Err "TypeError: invalid BigNumberish string"
           end
      else Err "TypeError: invalid BigNumberish string"
  | _ => Err "TypeError: invalid BigNumberish value"
  end.

Definition sampleResolver : Resolver.t :=
  Resolver.mk (Some "0x231b0Ee14048e9dCcD1d247744d114a4EB5E8E63")
              (Some (Ok (Some "ipfs://QmContent")))
              (fun key =>
                 if String.eqb key "name" then Ok (Some "Vitalik")
                 else if String.eqb key "url" then Ok (Some "")
                 else if String.eqb key "avatar" then Ok (Some "ipfs://Qm123")
                 else if String.eqb key "description" then Ok (Some "hello")
                 else Ok None)
              (Some (fun _ => Ok (Some vitalik)))
              None.

(** A resolver whose ["avatar"] fetch throws. *)
Definition brokenAvatarResolver : Resolver.t :=
  Resolver.mk (Some "0x231b0Ee14048e9dCcD1d247744d114a4EB5E8E63")
              None
              (fun key =>
                 if String.eqb key "avatar" then Err "Error: call revert"
                 else if String.eqb key "description" then Ok (Some "hello")
                 else Ok None)
              None
              None.

(** A resolver whose avatar is an HTTPS address. *)
Definition httpsAvatarResolver : Resolver.t :=
  Resolver.mk None None
              (fun key =>
                 if String.eqb key "avatar"
                 then Ok (Some "https://example.com/a.png")
                 else Ok None)
              None None.

Definition sampleProvider : Provider :=
  mkProvider
    (fun name => if String.eqb name "vitalik.eth" then Ok (Some vitalik)
                 else Ok None)
    (fun _ => Ok 1500000000000000000%Z)
    (fun _ => Ok "0x")
    (fun _ => Ok 7)
    (fun _ => Ok (Some "vitalik.eth"))
    (fun name => if String.eqb name "vitalik.eth" then Ok (Some sampleResolver)
                 else Ok None).

Definition rawTx : JsVal :=
  VObject [("blockNumber", VString "19000000");
           ("timeStamp", VString "1705000000");
           ("hash", VString "0xabc");
           ("from", VString vitalik);
           ("to", VNull);
           ("value", VString "1000000000000000000")].

Definition txListBody : JsVal :=
  VObject [("status", VString "1"); ("message", VString "OK");
           ("result", VArray [rawTx])].

Definition noTxBody : JsVal :=
  VObject [("status", VString "0"); ("message", VString "No transactions found");
           ("result", VArray [])].

(** Status ["1"] and an array result that holds [null]. *)
Definition nullRecordBody : JsVal :=
  VObject [("status", VString "1"); ("message", VString "OK");
           ("result", VArray [VNull])].

(** Status ["0"] and a message that is an object with an own
    [toString]. *)
Definition oddMessageBody : JsVal :=
  VObject [("status", VString "0");
           ("message", VObject [("toString", VNumber (Num 1))]);
           ("result", VArray [])].

(** A record whose block number is an object with an own [toString]. *)
Definition oddBlockBody : JsVal :=
  VObject [("status", VString "1"); ("message", VString "OK");
           ("result",
            VArray [VObject [("blockNumber", VObject [("toString", VNull)]);
                             ("timeStamp", VString "1705000000");
                             ("hash", VString "0xabc");
                             ("from", VString vitalik);
                             ("to", VNull);
                             ("value", VString "1000000000000000000")]])].

(** A record whose block number is not a double. *)
Definition wideBlockBody : JsVal :=
  VObject [("status", VString "1"); ("message", VString "OK");
           ("result",
            VArray [VObject [("blockNumber", VString "9007199254740993");
                             ("timeStamp", VString "1705000000");
                             ("hash", VString "0xabc");
                             ("from", VString vitalik);
                             ("to", VNull);
                             ("value", VString "1000000000000000000")]])].

Definition worldWith (provider : result Provider) (body : result Response)
  : World :=
  mkWorld (fun _ => provider)
          (fun s => String.eqb s vitalik)
          (fun s => if String.eqb s vitalik
                    then Err "Error: invalid ENS name" else Ok "0xee6c45")
          sampleFormatEther
          (fun _ => body)
          None
          (fun _ => someTime)
          sampleNumberToString
          sampleParseInt.

Definition sampleWorld : World :=
  worldWith (Ok sampleProvider) (Ok (mkResponse (Ok txListBody))).

Definition noTxWorld : World :=
  worldWith (Ok sampleProvider) (Ok (mkResponse (Ok noTxBody))).

Definition nullRecordWorld : World :=
  worldWith (Ok sampleProvider) (Ok (mkResponse (Ok nullRecordBody))).

Definition oddMessageWorld : World :=
  worldWith (Ok sampleProvider) (Ok (mkResponse (Ok oddMessageBody))).

Definition oddBlockWorld : World :=
  worldWith (Ok sampleProvider) (Ok (mkResponse (Ok oddBlockBody))).

Definition wideBlockWorld : World :=
  worldWith (Ok sampleProvider) (Ok (mkResponse (Ok wideBlockBody))).

Definition offlineWorld : World :=
  worldWith (Ok sampleProvider) (Err "TypeError: Failed to fetch").

Definition noProviderWorld : World :=
  worldWith (Err "Error: unsupported protocol") (Err "TypeError: Failed to fetch").

Definition initial : State := mkState [] None [] false false [].

(** A state left by an earlier lookup. *)
Definition used : State :=
  mkState [mkLog someTime info "Found 1 recent transactions"]
          (Some (Profile.setName (Some "Old") Profile.empty))
          [mkTransaction (VString "0xold") VNull VNull "0.0" (Num 1) (Num 2)]
          false true [ReqJson].

End Sample.

(* ================================================================= *)
(** ** The node colour of the graph view *)

Module GraphView.
Import JsString Js.

(** A code unit of a string: sixteen bits, as two bytes. *)
Record codeUnit : Type := mkCodeUnit { high : ascii; low : ascii }.

(** [name.charCodeAt(i)] for the code unit at [i]: below [2^16]. *)
Definition charCode (u : codeUnit) : Z :=
  (256 * Z.of_nat (nat_of_ascii (high u)) + Z.of_nat (nat_of_ascii (low u)))%Z.

(** The code unit with the code [n], for [n] below [2^16]. *)
Definition codeUnitOf (n : Z) : codeUnit :=
  mkCodeUnit (ascii_of_nat (Z.to_nat (n / 256)))
             (ascii_of_nat (Z.to_nat (n mod 256))).

(** The code units of a text whose characters are all below 256. *)
Definition codeUnits (s : string) : list codeUnit :=
  map (mkCodeUnit zero) (chars s).

(** [ToInt32]: the integer modulo [2^32], in the signed range. *)
Definition toInt32 (z : Z) : Z := ((z + 2 ^ 31) mod 2 ^ 32 - 2 ^ 31)%Z.

(** [a << n] for a shift count below 32. *)
Definition shl (a n : Z) : Z := toInt32 (Z.shiftl (toInt32 a) n).

(** The loop of [getNodeColor] from index [i] on, [cs] being the code
    units from [i]: [hash = name.charCodeAt(i) + ((hash << 5) - hash)].
    The shift works on 32 bits; the difference and the sum are those of
    doubles.  (A string has fewer than [2^53] code units, which keeps
    the hash far from [2^1024], where the doubles end.) *)
Fixpoint hashLoop (cs : list codeUnit) (hash : Z) : Z :=
  match cs with
  | [] => hash
  | c :: cs' =>
      hashLoop cs' (roundDouble (charCode c + roundDouble (shl hash 5 - hash)))
  end.

Definition nameHash (name : list codeUnit) : Z := hashLoop name 0.

(** [hash % 360]: the remainder has the sign of [hash]. *)
Definition hueOf (hash : Z) : Z := Z.rem hash 360.

Definition getNodeColor (name : list codeUnit) : string :=
  let hash := nameHash name in
  let hue := hueOf hash in
  "hsl(" +++ ofZ hue +++ ", 65%, 55%)".

End GraphView.

(* ================================================================= *)
(** ** The handlers of the component *)

Module App.
Import JsString Js Graph Lookup.

Inductive Mode : Type := single | graph_.

(** The state of the component: the part the lookup works on, and the
    rest. *)
Record AppState : Type := mkApp
  { ui : State;
    query : string;
    mode : Mode;
    graphNodes : list INode;
    graphEdges : list IEdge;
    selectedNode : option string }.

Definition withUi (f : State -> State) (a : AppState) : AppState :=
  mkApp (f (ui a)) (query a) (mode a) (graphNodes a) (graphEdges a)
        (selectedNode a).

Section WithWorld.
Variable w : World.

(** [handleGraphSubmit].  [parseGraphInput] always gives a graph
    ([matchedPairs_total]); the other branch leaves the state. *)
Definition handleGraphSubmit (a : AppState) : AppState :=
  match parseGraphInput (query a) with
  | Some g =>
      mkApp (snd (addLog w info
                    ("Created graph with " +++ ofNat (List.length (nodes g))
                       +++ " nodes and " +++ ofNat (List.length (edges g))
                       +++ " edges") (ui a)))
            (query a) (mode a) (nodes g) (edges g) (selectedNode a)
  | None => a
  end.

(** [handleNodeClick]: the node is selected, the modal shown, and the
    lookup run on the node's title (the line written to the console is
    left out). *)
Definition handleNodeClick (node : INode) (a : AppState) : AppState :=
  let a1 := mkApp (ui a) (query a) (mode a) (graphNodes a) (graphEdges a)
                  (Some (id node)) in
  let a2 := withUi (fun st => snd (setShowModal true st)) a1 in
  withUi (fun st => snd (doLookup w (title node) st)) a2.

(** [onSubmit]. *)
Definition onSubmit (a : AppState) : AppState :=
  match mode a with
  | graph_ => handleGraphSubmit a
  | single => withUi (fun st => snd (doLookup w (trim (query a)) st)) a
  end.

End WithWorld.
End App.

(* ================================================================= *)
(** ** The command-line lookup *)

Module Script.
Import JsString Js Lookup.

(** A line on the console.  The line that prints
    [JSON.stringify(result, null, 2)] is kept as the value [result]. *)
Inductive ConsoleLine : Type :=
| ConsoleLog (text : string)
| ConsoleLogJson (result : JsVal)
| ConsoleError (label err : string).

Definition ensName : string := "vitalik.eth".

Definition newline : string := String (ascii_of_nat 10) EmptyString.

(** [p.catch(() => null)] *)
Definition orNull (r : result (option string)) : JsVal :=
  match r with
  | Ok (Some s) => VString s
  | Ok None => VNull
  | Err _ => VNull
  end.

Definition ofNullable (x : option string) : JsVal :=
  match x with Some s => VString s | None => VNull end.

(** What [main] leaves: how it ends, the console, oldest line first, and
    the requests sent, oldest first. *)
Record Run : Type := mkRun
  { ending : completion unit;
    console : list ConsoleLine;
    sent : list Request }.

Definition failed (console : list ConsoleLine) (sent : list Request)
           (err : string) : Run :=
  mkRun (Normal tt)
        (console ++ [ConsoleError "Error looking up ENS:" err]) sent.

(** The object literal assigned to [result.records].  [getText] is
    there, as on every resolver of the library, and an [Err] of a fetch is
    a rejected promise, which [catch] turns into [null]; [getAddress] and
    [getContentHash] are optional as in the component, and calling one
    that is missing throws a [TypeError] that no [catch] of a promise
    sees. *)
Definition records (r : Resolver.t)
  : result JsVal * list Request :=
  let avatar := orNull (Resolver.getText r "avatar") in
  let email := orNull (Resolver.getText r "email") in
  let url := orNull (Resolver.getText r "url") in
  let description := orNull (Resolver.getText r "description") in
  let texts := [ReqGetText "avatar"; ReqGetText "email"; ReqGetText "url";
                ReqGetText "description"] in
  match Resolver.getAddress r with
  | None => (Err "TypeError: resolver.getAddress is not a function", texts)
  | Some getAddress =>
      let eth := orNull (getAddress (Some 60)) in
      match Resolver.getContentHash r with
      | None =>
          (Err "TypeError: resolver.getContentHash is not a function",
           texts ++ [ReqGetAddress (Some 60)])
      | Some call =>
          (Ok (VObject
                 [("text", VObject [("avatar", avatar); ("email", email);
                                    ("url", url);
                                    ("description", description)]);
                  ("addr", VObject [("ETH", eth)]);
                  ("contentHash", orNull call)]),
           texts ++ [ReqGetAddress (Some 60); ReqGetContentHash])
      end
  end.

(** [main]. *)
Definition main (w : World) : Run :=
  match JsonRpcProvider w "https://eth.llamarpc.com" with
  | Err e => mkRun (Throw e) [] []
  | Ok provider =>
      let out := [ConsoleLog ("Looking up ENS: " +++ ensName +++ newline)] in
      match resolveName provider ensName with
      | Err e => failed out [ReqResolveName ensName] e
      | Ok address =>
          let reqs := [ReqResolveName ensName; ReqGetResolver ensName] in
          match getResolver provider ensName with
          | Err e => failed out reqs e
          | Ok None =>
              mkRun (Normal tt)
                    (out ++ [ConsoleLogJson
                               (VObject [("ens", VString ensName);
                                         ("address", ofNullable address)])])
                    reqs
          | Ok (Some r) =>
              match records r with
              | (Err e, more) => failed out (reqs ++ more) e
              | (Ok recs, more) =>
                  mkRun (Normal tt)
                        (out ++ [ConsoleLogJson
                                   (VObject [("ens", VString ensName);
                                             ("address", ofNullable address);
                                             ("records", recs)])])
                        (reqs ++ more)
              end
          end
      end
  end.

End Script.

(* ================================================================= *)
(** ** What the further properties are stated with *)

Module MoreSpec.
Import JsString Js Graph GraphSpec Lookup LookupSpec GraphView Script.

(** The hash of a string with multiplier 31, from [h] on. *)
Fixpoint poly31 (cs : list codeUnit) (h : Z) : Z :=
  match cs with
  | [] => h
  | c :: cs' => poly31 cs' (31 * h + charCode c)%Z
  end.

(** A pair as it is typed: [(a,b)]. *)
Definition renderPair (p : string * string) : string :=
  "(" +++ fst p +++ "," +++ snd p +++ ")".

(** A list of pairs as it is typed: [[(a,b),(c,d)]]. *)
Definition renderPairs (ps : list (string * string)) : string :=
  "[" +++ join "," (map renderPair ps) +++ "]".

(** A pair that reads back as itself: both names are non-empty and have
    no white space at either end, the first holds no comma and the second
    no close-parenthesis. *)
Definition cleanPair (p : string * string) : Prop :=
  fst p <> "" /\ trim (fst p) = fst p /\ ~ In ","%char (chars (fst p))
  /\ snd p <> "" /\ trim (snd p) = snd p /\ ~ In ")"%char (chars (snd p)).

(** A pair as the parser gives it: no white space at either end of its
    names, no comma in the first and no close-parenthesis in the
    second. *)
Definition wellFormedPair (p : string * string) : Prop :=
  trim (fst p) = fst p /\ trim (snd p) = snd p
  /\ ~ In ","%char (chars (fst p)) /\ ~ In ")"%char (chars (snd p)).

(** The profile holds an address exactly when it holds a balance. *)
Definition paired (p : option Profile.t) : Prop :=
  match Profile.address (Profile.orEmpty p),
        Profile.balance (Profile.orEmpty p) with
  | Some _, Some _ => True
  | None, None => True
  | _, _ => False
  end.

Definition keepsPaired (st st' : State) : Prop :=
  paired (profile st) -> paired (profile st').

(** The log after is the log before with entries put in front. *)
Definition logGrows (st st' : State) : Prop :=
  exists added, logs st' = added ++ logs st.

(** The step leaves the address and the balance of the profile. *)
Definition sameAddressBalance (st st' : State) : Prop :=
  Profile.address (Profile.orEmpty (profile st'))
  = Profile.address (Profile.orEmpty (profile st))
  /\ Profile.balance (Profile.orEmpty (profile st'))
     = Profile.balance (Profile.orEmpty (profile st)).

(** The step sends nothing. *)
Definition sameRequests (st st' : State) : Prop := requests st' = requests st.

Definition isResolverRequest (q : Request) : Prop :=
  match q with
  | ReqGetContentHash | ReqGetText _ | ReqGetAddress _ | ReqAddr _ => True
  | _ => False
  end.

Definition notResolverRequest (q : Request) : Prop := ~ isResolverRequest q.

Section SameRun.
(** Two runs, the first from a state with log [log1] and requests
    [reqs1], the second from [log2] and [reqs2], that have done the same:
    the same entries logged, the same requests sent, and the same
    profile, transactions and flags now. *)
Variables (log1 log2 : list LogEntry) (reqs1 reqs2 : list Request).

Definition sameRun (st1 st2 : State) : Prop :=
  profile st1 = profile st2
  /\ transactions st1 = transactions st2
  /\ loading st1 = loading st2
  /\ showModal st1 = showModal st2
  /\ (exists added1 added2,
        logs st1 = added1 ++ log1 /\ logs st2 = added2 ++ log2
        /\ map levelText added1 = map levelText added2)
  /\ (exists sent, requests st1 = sent ++ reqs1 /\ requests st2 = sent ++ reqs2).

(** The computation does the same in both runs. *)
Definition agrees {A : Type} (m : M A) : Prop :=
  forall st1 st2,
    sameRun st1 st2 ->
    fst (m st1) = fst (m st2) /\ sameRun (after m st1) (after m st2).
End SameRun.

(** The first line [main] prints. *)
Definition greeting : ConsoleLine :=
  ConsoleLog ("Looking up ENS: vitalik.eth" +++ newline).

(** A line that reports the outcome: the result, or the error under its
    label. *)
Definition isReport (l : ConsoleLine) : Prop :=
  match l with
  | ConsoleLogJson _ => True
  | ConsoleError label _ => label = "Error looking up ENS:"
  | ConsoleLog _ => False
  end.

End MoreSpec.

(* ================================================================= *)
(** * Properties of the graph parser *)

Module GraphFacts.
Import JsString RegExp Graph GraphSpec.

(** *** The matcher *)

Lemma cut_app c run rest :
  ~ In c run -> cut c (run ++ c :: rest) = Some (run, rest).
Proof.
  induction run as [|x run IH]; simpl; intros Hn.
  - now rewrite Ascii.eqb_refl.
  - destruct (Ascii.eqb_spec x c) as [->|N].
    + exfalso. apply Hn. now left.
    + rewrite IH; [reflexivity|]. intros I. apply Hn. now right.
Qed.

Lemma cut_inv c s run rest :
  cut c s = Some (run, rest) -> s = run ++ c :: rest /\ ~ In c run.
Proof.
  revert run rest. induction s as [|x s IH]; intros run rest; simpl.
  - discriminate.
  - destruct (Ascii.eqb_spec x c) as [->|N].
    + intros [= <- <-]. split; [reflexivity | intros []].
    + destruct (cut c s) as [[run' rest']|]; [|discriminate].
      intros [= <- <-]. destruct (IH run' rest' eq_refl) as [-> Hn].
      split; [reflexivity|]. intros [E|I]; [now apply N | now apply Hn].
Qed.

Lemma cut_None c s : cut c s = None -> ~ In c s.
Proof.
  induction s as [|x s IH]; simpl; [intros _ []|].
  destruct (Ascii.eqb_spec x c) as [->|N]; [discriminate|].
  destruct (cut c s) as [[run rest]|]; [discriminate|].
  intros _ [E|I]; [now apply N | now apply IH].
Qed.

Lemma inClass_single c x : inClass [c] x = negb (Ascii.eqb x c).
Proof. unfold inClass. simpl. now rewrite orb_false_r. Qed.

(** Backtracking never helps when the repeated class excludes exactly
    the character the rest of the pattern starts with. *)
Lemma greedy_cut {R : Type} c (k : list ascii -> list ascii -> option R) s :
  needs c k ->
  greedy [c] k s = match cut c s with
                   | Some (run, rest) => k run (c :: rest)
                   | None => None
                   end.
Proof.
  revert k. induction s as [|x s IH]; intros k Hk; simpl.
  - apply Hk. intros r'. discriminate.
  - rewrite inClass_single. destruct (Ascii.eqb_spec x c) as [->|N]; simpl.
    + reflexivity.
    + rewrite IH.
      * destruct (cut c s) as [[run rest]|].
        -- destruct (k (x :: run) (c :: rest)) eqn:Ek; [reflexivity|].
           apply Hk. intros r' [= E _]. now apply N.
        -- apply Hk. intros r' [= E _]. now apply N.
      * intros g r Hr. now apply Hk.
Qed.

Lemma needs_lit c items (f : list ascii -> list (list ascii))
      (k := fun g r => matchItems (Lit c :: items) r (f g)) :
  needs c k.
Proof.
  intros g r Hr. unfold k. simpl. destruct r as [|x r]; [reflexivity|].
  destruct (Ascii.eqb_spec x c) as [->|N]; [|reflexivity].
  now elim (Hr r).
Qed.

Lemma matchItems_lit c items s caps :
  matchItems (Lit c :: items) s caps =
    match s with
    | x :: s' => if Ascii.eqb x c then matchItems items s' caps else None
    | [] => None
    end.
Proof. reflexivity. Qed.

(** A group closed by the character its class excludes takes the text
    up to the first occurrence of that character. *)
Lemma matchItems_group c items s caps :
  matchItems (GroupPlusNot [c] :: Lit c :: items) s caps =
    match cut c s with
    | Some (x :: t, rest) => matchItems items rest (caps ++ [x :: t])
    | _ => None
    end.
Proof.
  destruct s as [|x s]; [reflexivity|].
  change (matchItems (GroupPlusNot [c] :: Lit c :: items) (x :: s) caps)
    with (if inClass [c] x
          then greedy [c] (fun g r =>
                 matchItems (Lit c :: items) r (caps ++ [x :: g])) s
          else None).
  rewrite inClass_single. cbn [cut].
  destruct (Ascii.eqb x c); [reflexivity|]. cbn [negb].
  rewrite (greedy_cut c).
  - destruct (cut c s) as [[t rest]|]; [|reflexivity].
    rewrite matchItems_lit. now rewrite Ascii.eqb_refl.
  - apply (needs_lit c items (fun g => caps ++ [x :: g])).
Qed.

(** The expression matches at the head of [s] exactly where a pair
    starts, with the two tokens as its captures. *)
Lemma matchItems_pairHere s :
  matchItems pairRegex s [] =
    match pairHere s with
    | Some (t1, t2, rest) => Some ([t1; t2], rest)
    | None => None
    end.
Proof.
  unfold pairRegex, pairHere. rewrite matchItems_lit.
  destruct s as [|p s1]; [reflexivity|].
  destruct (Ascii.eqb_spec p "("%char) as [->|N].
  2:{ destruct p as [[] [] [] [] [] [] [] []]; try reflexivity. now elim N. }
  rewrite matchItems_group.
  destruct (cut ","%char s1) as [[[|x t1] s2]|]; try reflexivity.
  rewrite matchItems_group.
  destruct (cut ")"%char s2) as [[[|y t2] rest]|]; reflexivity.
Qed.

Lemma not_in_single (c : ascii) (t : list ascii) :
  (forall d, In d [c] -> ~ In d t) <-> ~ In c t.
Proof.
  split.
  - intros H. apply H. now left.
  - intros H d [<-|[]]. exact H.
Qed.

Lemma pairHere_pairAt s t1 t2 rest :
  pairHere s = Some (t1, t2, rest) <->
  pairAt [","%char] [")"%char] s t1 t2 rest.
Proof.
  unfold pairAt. rewrite !not_in_single. split.
  - unfold pairHere. destruct s as [|p s1]; [discriminate|].
    destruct (Ascii.eqb_spec p "("%char) as [->|N].
    2:{ destruct p as [[] [] [] [] [] [] [] []]; try discriminate.
        now elim N. }
    destruct (cut ","%char s1) as [[[|x u1] s2]|] eqn:E1; try discriminate.
    destruct (cut ")"%char s2) as [[[|y u2] r]|] eqn:E2; try discriminate.
    intros [= <- <- <-].
    apply cut_inv in E1 as [-> H1]. apply cut_inv in E2 as [-> H2].
    repeat split; try assumption; discriminate.
  - intros (-> & N1 & H1 & N2 & H2). unfold pairHere.
    rewrite (cut_app _ _ _ H1).
    destruct t1 as [|x t1]; [now elim N1|].
    rewrite (cut_app _ _ _ H2).
    destruct t2 as [|y t2]; [now elim N2|]. reflexivity.
Qed.

Lemma pairHere_shorter s t1 t2 rest :
  pairHere s = Some (t1, t2, rest) -> List.length rest < List.length s.
Proof.
  intros H. apply pairHere_pairAt in H as (-> & _).
  cbn [List.length]. rewrite !length_app. cbn [List.length].
  rewrite !length_app. cbn [List.length]. lia.
Qed.

(** *** The scan *)

Lemma exec_unfold items s :
  exec items s = match matchItems items s [] with
                 | Some r => Some r
                 | None => match s with
                           | [] => None
                           | _ :: s' => exec items s'
                           end
                 end.
Proof. destruct s; reflexivity. Qed.

Lemma exec_None s :
  exec pairRegex s = None -> ScannedByCode s [].
Proof.
  induction s as [|c s IH]; intros H.
  - constructor.
  - rewrite exec_unfold, matchItems_pairHere in H.
    destruct (pairHere (c :: s)) as [[[t1 t2] rest]|] eqn:E; [discriminate|].
    apply Scanned_skip.
    + intros t1 t2 rest P. apply pairHere_pairAt in P. congruence.
    + now apply IH.
Qed.

Lemma exec_Some s caps rest :
  exec pairRegex s = Some (caps, rest) ->
  exists t1 t2,
    caps = [t1; t2] /\ List.length rest < List.length s
    /\ forall ps, ScannedByCode rest ps ->
                  ScannedByCode s
                    ((ofChars (trimChars t1), ofChars (trimChars t2)) :: ps).
Proof.
  induction s as [|c s IH].
  - discriminate.
  - rewrite exec_unfold, matchItems_pairHere.
    destruct (pairHere (c :: s)) as [[[t1 t2] r]|] eqn:E.
    + intros [= <- <-]. exists t1, t2. split; [reflexivity|]. split.
      * exact (pairHere_shorter _ _ _ _ E).
      * intros ps Hps. apply Scanned_pair with (rest := r); [|exact Hps].
        now apply pairHere_pairAt.
    + intros H. destruct (IH H) as (t1 & t2 & -> & Hlen & Hsc).
      exists t1, t2. split; [reflexivity|]. split; [cbn [List.length]; lia|].
      intros ps Hps. apply Scanned_skip; [|now apply Hsc].
      intros u1 u2 r P. apply pairHere_pairAt in P. congruence.
Qed.

Lemma trim_ofChars l : trim (ofChars l) = ofChars (trimChars l).
Proof.
  unfold trim, chars, ofChars. now rewrite list_ascii_of_string_of_list_ascii.
Qed.

Lemma execLoop_scanned fuel : forall s acc,
  List.length s < fuel ->
  exists ps, execLoop fuel s acc = Some (acc ++ ps) /\ ScannedByCode s ps.
Proof.
  induction fuel as [|fuel IH]; intros s acc Hlen; [lia|].
  simpl. destruct (exec pairRegex s) as [[caps rest]|] eqn:E.
  - destruct (exec_Some _ _ _ E) as (t1 & t2 & -> & Hr & Hsc).
    destruct (IH rest
                 (acc ++ [(ofChars (trimChars t1), ofChars (trimChars t2))]))
      as (ps & Hps & Sps); [lia|].
    exists ((ofChars (trimChars t1), ofChars (trimChars t2)) :: ps).
    split; [|now apply Hsc].
    cbn [nth]. rewrite !trim_ofChars, Hps. now rewrite <- app_assoc.
  - exists []. rewrite app_nil_r. split; [reflexivity|]. now apply exec_None.
Qed.

Lemma ScannedByCode_functional s ps :
  ScannedByCode s ps -> forall ps', ScannedByCode s ps' -> ps = ps'.
Proof.
  induction 1 as [|c s ps Hno _ IH|s t1 t2 rest ps P _ IH]; intros ps' H'.
  - inversion H' as [| |s' u1 u2 r qs Q]; subst; [reflexivity|].
    destruct Q as (Q & _). discriminate.
  - inversion H' as [|c' s' qs _ Hs|s' u1 u2 r qs Q]; subst.
    + now apply IH.
    + now elim (Hno u1 u2 r).
  - inversion H' as [|c' s' qs Hno Hs|s' u1 u2 r qs Q Hr]; subst.
    + destruct P as (P & _). discriminate.
    + now elim (Hno t1 t2 rest).
    + apply pairHere_pairAt in P, Q. rewrite P in Q.
      injection Q as <- <- <-. f_equal. now apply IH.
Qed.

Lemma length_chars s : List.length (chars s) = String.length s.
Proof. induction s; simpl; congruence. Qed.

(** The loop never runs out of fuel. *)
Lemma matchedPairs_total input :
  exists ps, matchedPairs input = Some ps /\ ScannedByCode (chars input) ps.
Proof.
  unfold matchedPairs.
  destruct (execLoop_scanned (S (String.length input)) (chars input) [])
    as (ps & H & S); [rewrite length_chars; lia|].
  exists ps. split; assumption.
Qed.

Lemma parseGraphInput_of_pairs input ps :
  matchedPairs input = Some ps ->
  parseGraphInput input =
    Some {| nodes := mapi nodeOf (nodeSetOf ps); edges := map edgeOf ps |}.
Proof. unfold parseGraphInput. now intros ->. Qed.

Lemma endpoints_edgeOf ps : map endpoints (map edgeOf ps) = ps.
Proof.
  induction ps as [|[a b] ps IH]; simpl; [reflexivity|]. now rewrite IH.
Qed.

(** *** Tokens *)

Lemma In_dropWhile p c l : In c (dropWhile p l) -> In c l.
Proof.
  induction l as [|a l IH]; simpl; [auto|].
  destruct (p a); [intros H; right; now apply IH | auto].
Qed.

Lemma In_trimChars c l : In c (trimChars l) -> In c l.
Proof.
  unfold trimChars, trimEnd, trimStart. intros H.
  apply in_rev, In_dropWhile, in_rev, In_dropWhile in H. exact H.
Qed.

Lemma chars_ofChars l : chars (ofChars l) = l.
Proof. apply list_ascii_of_string_of_list_ascii. Qed.

(** Scanned with tokens as the claim words them, no token holds a comma
    or a close-parenthesis. *)
Lemma ScannedAsStated_tokens s ps :
  ScannedAsStated s ps ->
  forall t c, In t (tokens ps) -> In c [","%char; ")"%char] ->
              ~ In c (chars t).
Proof.
  induction 1 as [|c0 s ps _ _ IH|s t1 t2 rest ps P _ IH]; intros t c Ht Hc.
  - destruct Ht.
  - now apply IH.
  - destruct P as (_ & _ & H1 & _ & H2).
    cbn [tokens flat_map fst snd app] in Ht.
    destruct Ht as [<-|[<-|Ht]].
    + rewrite chars_ofChars. intros I. apply In_trimChars in I.
      now apply (H1 c).
    + rewrite chars_ofChars. intros I. apply In_trimChars in I.
      now apply (H2 c).
    + now apply IH.
Qed.

(** *** The node set *)

Lemma nodeSetOf_tokens ps : nodeSetOf ps = addAll [] (tokens ps).
Proof.
  unfold nodeSetOf, addAll. generalize (@nil string) as acc.
  induction ps as [|[a b] ps IH]; intros acc; simpl; [reflexivity|].
  apply IH.
Qed.

Lemma Set_has_In s v : Set_has s v = true <-> In v s.
Proof.
  unfold Set_has. rewrite existsb_exists. split.
  - intros (u & I & E). apply String.eqb_eq in E. now subst.
  - intros I. exists v. split; [exact I | apply String.eqb_refl].
Qed.

Lemma Set_has_app s t v : Set_has (s ++ t) v = Set_has s v || Set_has t v.
Proof. unfold Set_has. apply existsb_app. Qed.

Lemma In_addAll l : forall acc t, In t (addAll acc l) <-> In t acc \/ In t l.
Proof.
  induction l as [|a l IH]; intros acc t; simpl.
  - tauto.
  - unfold addAll in *. simpl. rewrite IH. unfold Set_add.
    destruct (Set_has acc a) eqn:E.
    + apply Set_has_In in E. intuition (subst; auto).
    + rewrite in_app_iff. simpl. intuition.
Qed.

Lemma NoDup_addAll l : forall acc, NoDup acc -> NoDup (addAll acc l).
Proof.
  induction l as [|a l IH]; intros acc N; simpl; [exact N|].
  unfold addAll in *. simpl. apply IH. unfold Set_add.
  destruct (Set_has acc a) eqn:E; [exact N|].
  apply NoDup_app; [exact N | repeat constructor; intros [] |].
  intros u I [<-|[]]. apply Set_has_In in I. congruence.
Qed.

Lemma filter_filter_absorb (acc : list string) a (X : list string) :
  Set_has acc a = true ->
  filter (fun b => negb (Set_has acc b))
         (filter (fun b => negb (String.eqb b a)) X)
  = filter (fun b => negb (Set_has acc b)) X.
Proof.
  intros Ha. induction X as [|u X IH]; simpl; [reflexivity|].
  destruct (String.eqb_spec u a) as [->|N]; simpl.
  - now rewrite Ha.
  - now rewrite IH.
Qed.

Lemma filter_snoc (acc : list string) a (X : list string) :
  filter (fun b => negb (Set_has (acc ++ [a]) b)) X
  = filter (fun b => negb (Set_has acc b))
           (filter (fun b => negb (String.eqb b a)) X).
Proof.
  induction X as [|u X IH]; simpl; [reflexivity|].
  rewrite Set_has_app. unfold Set_has at 2. simpl. rewrite orb_false_r.
  destruct (String.eqb u a); simpl.
  - now rewrite orb_true_r.
  - rewrite orb_false_r. now rewrite IH.
Qed.

(** Adding the elements of [l] one by one keeps each at its first
    occurrence. *)
Lemma addAll_firstSeen l : forall acc,
  addAll acc l = acc ++ filter (fun b => negb (Set_has acc b)) (firstSeen l).
Proof.
  induction l as [|a l IH]; intros acc.
  - simpl. now rewrite app_nil_r.
  - change (addAll acc (a :: l)) with (addAll (Set_add acc a) l).
    rewrite IH. unfold Set_add. cbn [firstSeen filter].
    destruct (Set_has acc a) eqn:E; cbn [negb].
    + now rewrite filter_filter_absorb.
    + rewrite <- app_assoc. cbn [app]. now rewrite filter_snoc.
Qed.

Lemma nodeSetOf_firstSeen ps : nodeSetOf ps = firstSeen (tokens ps).
Proof.
  rewrite nodeSetOf_tokens, addAll_firstSeen. cbn [app].
  generalize (firstSeen (tokens ps)) as X.
  induction X as [|u X IH]; [reflexivity|].
  simpl. f_equal. exact IH.
Qed.

Lemma map_id_mapi_from l : forall k, map id (mapi_from nodeOf k l) = l.
Proof. induction l as [|a l IH]; intros k; simpl; congruence. Qed.

Lemma map_title_mapi_from l : forall k, map title (mapi_from nodeOf k l) = l.
Proof. induction l as [|a l IH]; intros k; simpl; congruence. Qed.

Lemma position_mapi_from l : forall k,
  map position (mapi_from nodeOf k l) = map gridPosition (seq k (List.length l)).
Proof. induction l as [|a l IH]; intros k; simpl; [|rewrite IH]; reflexivity. Qed.

Lemma length_mapi_from {A B : Type} (f : A -> nat -> B) l : forall k,
  List.length (mapi_from f k l) = List.length l.
Proof. induction l as [|a l IH]; intros k; simpl; congruence. Qed.

(** *** The claims *)

(** C2 (as amended).  For every input the loop ends, and the matched
    pairs, which are the endpoints of the returned edges in order, are
    exactly the pairs of the scan from left to right in which the first
    token is the non-empty text up to the first comma and the second the
    non-empty text up to the first close-parenthesis, each trimmed. *)
Theorem parse_pairs_scanned (input : string) :
  exists ps g,
    matchedPairs input = Some ps
    /\ parseGraphInput input = Some g
    /\ map endpoints (edges g) = ps
    /\ forall ps', ScannedByCode (chars input) ps' <-> ps' = ps.
Proof.
  destruct (matchedPairs_total input) as (ps & Hps & Sps).
  exists ps, {| nodes := mapi nodeOf (nodeSetOf ps); edges := map edgeOf ps |}.
  split; [exact Hps|]. split; [now apply parseGraphInput_of_pairs|].
  split; [apply endpoints_edgeOf|].
  intros ps'. split.
  - intros S'. now apply (ScannedByCode_functional _ _ S').
  - now intros ->.
Qed.

(** C2, the claim as stated, fails: on the input [(a,b,c)] the parser
    matches the pair of [a] and [b,c], whose second token holds a comma;
    with tokens free of commas and close-parentheses that input has no
    such pair. *)
Lemma parse_pairs_as_stated_fails :
  matchedPairs "(a,b,c)" = Some [("a", "b,c")]
  /\ ~ ScannedAsStated (chars "(a,b,c)") [("a", "b,c")].
Proof.
  split; [reflexivity|]. intros H.
  apply (ScannedAsStated_tokens _ _ H "b,c" ","%char).
  - cbn. auto.
  - now left.
  - cbn. auto.
Qed.

(** C3.  For every input the node ids are the distinct tokens of the
    matched pairs in first-seen order, without repetition; the node at
    0-based position [i] has [x = (i mod 5) * 200 + 100] and
    [y = floor(i / 5) * 150 + 100]; and the example input yields the
    nodes A, B, C, D on the first grid row and the four edges in input
    order. *)
Theorem parse_nodes_first_seen (input : string) :
  exists ps g,
    matchedPairs input = Some ps
    /\ parseGraphInput input = Some g
    /\ map id (nodes g) = firstSeen (tokens ps)
    /\ map title (nodes g) = map id (nodes g)
    /\ NoDup (map id (nodes g))
    /\ map position (nodes g) = map gridPosition (seq 0 (List.length (nodes g)))
    /\ parseGraphInput "[(A,B),(C,D),(C,B),(D,A)]" =
         Some {| nodes := [mkNode "A" "A" "empty" 100 100;
                           mkNode "B" "B" "empty" 300 100;
                           mkNode "C" "C" "empty" 500 100;
                           mkNode "D" "D" "empty" 700 100];
                 edges := [mkEdge "A" "B" "emptyEdge";
                           mkEdge "C" "D" "emptyEdge";
                           mkEdge "C" "B" "emptyEdge";
                           mkEdge "D" "A" "emptyEdge"] |}.
Proof.
  destruct (matchedPairs_total input) as (ps & Hps & _).
  exists ps, {| nodes := mapi nodeOf (nodeSetOf ps); edges := map edgeOf ps |}.
  split; [exact Hps|]. split; [now apply parseGraphInput_of_pairs|].
  cbn [nodes]. unfold mapi.
  assert (Hid : map id (mapi_from nodeOf 0 (nodeSetOf ps)) = nodeSetOf ps)
    by apply map_id_mapi_from.
  split; [now rewrite Hid, nodeSetOf_firstSeen|].
  split.
  { now rewrite Hid, map_title_mapi_from. }
  split.
  { rewrite Hid, nodeSetOf_tokens. apply NoDup_addAll. constructor. }
  split.
  { rewrite position_mapi_from. now rewrite length_mapi_from. }
  reflexivity.
Qed.

(** C9.  For every input the result is closed and covering: the source
    and the target of every edge are ids of nodes, every node id is the
    source or the target of some edge, and without a matched pair both
    sequences are empty. *)
Theorem parse_closed_covering (input : string) :
  exists ps g,
    matchedPairs input = Some ps
    /\ parseGraphInput input = Some g
    /\ Forall (fun e => In (source e) (map id (nodes g))
                        /\ In (target e) (map id (nodes g))) (edges g)
    /\ Forall (fun n => Exists (fun e => source e = id n \/ target e = id n)
                               (edges g)) (nodes g)
    /\ match ps with
       | [] => nodes g = [] /\ edges g = []
       | _ :: _ => True
       end.
Proof.
  destruct (matchedPairs_total input) as (ps & Hps & _).
  exists ps, {| nodes := mapi nodeOf (nodeSetOf ps); edges := map edgeOf ps |}.
  split; [exact Hps|]. split; [now apply parseGraphInput_of_pairs|].
  cbn [nodes edges]. unfold mapi.
  assert (Hin : forall t, In t (nodeSetOf ps) <-> In t (tokens ps)).
  { intros t. rewrite nodeSetOf_tokens, In_addAll. simpl. tauto. }
  split; [|split].
  - rewrite map_id_mapi_from. apply Forall_forall. intros e He.
    apply in_map_iff in He as ([a b] & <- & Hp). cbn [edgeOf source target].
    split; apply Hin; unfold tokens; apply in_flat_map; exists (a, b);
      (split; [exact Hp | cbn; auto]).
  - apply Forall_forall. intros n Hn.
    assert (Ht : In (id n) (tokens ps)).
    { apply Hin. rewrite <- (map_id_mapi_from (nodeSetOf ps) 0).
      now apply in_map. }
    unfold tokens in Ht. apply in_flat_map in Ht as ([a b] & Hp & Hab).
    apply Exists_exists. exists (edgeOf (a, b)). split; [now apply in_map|].
    cbn in Hab |- *. destruct Hab as [E|[E|[]]]; auto.
  - destruct ps; [split; reflexivity | exact I].
Qed.

End GraphFacts.

(* ================================================================= *)
(** * Properties of the lookup orchestrator *)

Module LookupFacts.
Import JsString Js Lookup LookupSpec Sample.

Create HintDb steps.
#[local] Hint Unfold resolveAddress logNamehash requireAddress fetchBalance
  fetchCode fetchTransactionCount reverseLookup obtainResolver
  fetchContentHash fetchName fetchUrl fetchAvatar fetchDescription
  fetchProfileFields fetchResolverAddress fetchCoinAddress resolverRecords
  isTxList fetchTransactions lookupPrelude lookupBody lookupGuarded
  doLookup : steps.

(** *** How computations end *)

Section Yields.
Context {A B : Type}.

Lemma yields_weaken T (m : M A) : yields false m -> yields T m.
Proof.
  intros H st. specialize (H st). destruct (fst (m st)); auto; discriminate.
Qed.

Lemma yields_ret T (a : A) : yields T (ret a).
Proof. intros st. exact I. Qed.

Lemma yields_throw e : yields true (@throw A e).
Proof. intros st. reflexivity. Qed.

Lemma yields_lift (r : result A) : yields true (lift r).
Proof. intros st. unfold lift. destruct r; simpl; auto. Qed.

Lemma yields_await q (r : result A) : yields true (await q r).
Proof. intros st. unfold await. destruct r; simpl; auto. Qed.

Lemma yields_bind T (m : M A) (f : A -> M B) :
  yields T m -> (forall a, yields T (f a)) -> yields T (bind m f).
Proof.
  intros Hm Hf st. specialize (Hm st). unfold bind.
  destruct (m st) as [[a| |e] st1]; simpl in *; auto.
  apply Hf.
Qed.

Lemma yields_tryCatch T (m : M A) (h : string -> M A) :
  yields true m -> (forall e, yields T (h e)) -> yields T (tryCatch m h).
Proof.
  intros Hm Hh st. specialize (Hm st). unfold tryCatch.
  destruct (m st) as [[a| |e] st1]; simpl in *; auto.
  apply Hh.
Qed.
End Yields.

Lemma yields_forOf {A : Type} T (l : list A) (body : A -> M unit) :
  (forall a, yields T (body a)) -> yields T (forOf l body).
Proof.
  intros Hb. induction l as [|a l IH]; simpl.
  - apply yields_ret.
  - apply yields_bind; [apply Hb | intros _; exact IH].
Qed.

Lemma yields_addLog w T lv txt : yields T (addLog w lv txt).
Proof. intros st. exact I. Qed.
Lemma yields_setLoading T b : yields T (setLoading b).
Proof. intros st. exact I. Qed.
Lemma yields_setShowModal T b : yields T (setShowModal b).
Proof. intros st. exact I. Qed.
Lemma yields_setProfile T f : yields T (setProfile f).
Proof. intros st. exact I. Qed.
Lemma yields_setTransactions T txs : yields T (setTransactions txs).
Proof. intros st. exact I. Qed.

(** Takes a goal [yields T m] apart along the structure of [m]. *)
Ltac yields_tac :=
  autounfold with steps;
  repeat (intros;
    lazymatch goal with
    | |- yields _ (bind _ _) => apply yields_bind
    | |- yields _ (tryCatch _ _) => apply yields_tryCatch
    | |- yields _ (forOf _ _) => apply yields_forOf
    | |- yields _ (ret _) => apply yields_ret
    | |- yields _ (addLog _ _ _) => apply yields_addLog
    | |- yields _ (setLoading _) => apply yields_setLoading
    | |- yields _ (setShowModal _) => apply yields_setShowModal
    | |- yields _ (setProfile _) => apply yields_setProfile
    | |- yields _ (setTransactions _) => apply yields_setTransactions
    | |- yields true (throw _) => apply yields_throw
    | |- yields true (lift _) => apply yields_lift
    | |- yields true (await _ _) => apply yields_await
    | |- yields _ (if ?b then _ else _) => destruct b
    | |- yields _ (match ?x with _ => _ end) => destruct x
    end).

Section Steps.
Variable w : World.

Lemma logNamehash_ends name : yields false (logNamehash w name).
Proof. yields_tac. Qed.
Lemma fetchBalance_ends p a : yields false (fetchBalance w p a).
Proof. yields_tac. Qed.
Lemma fetchCode_ends p a : yields false (fetchCode w p a).
Proof. yields_tac. Qed.
Lemma fetchTransactionCount_ends p a :
  yields false (fetchTransactionCount w p a).
Proof. yields_tac. Qed.
Lemma reverseLookup_ends p a : yields false (reverseLookup w p a).
Proof. yields_tac. Qed.
Lemma obtainResolver_ends p name : yields false (obtainResolver w p name).
Proof. yields_tac. Qed.
Lemma fetchContentHash_ends r : yields false (fetchContentHash w r).
Proof. yields_tac. Qed.
Lemma fetchProfileFields_ends r : yields false (fetchProfileFields w r).
Proof. yields_tac. Qed.
Lemma fetchResolverAddress_ends r : yields false (fetchResolverAddress w r).
Proof. yields_tac. Qed.
Lemma fetchCoins_ends r : yields false (forOf coinTypes (fetchCoinAddress w r)).
Proof. yields_tac. Qed.
Lemma resolverRecords_ends r : yields false (resolverRecords w r).
Proof. yields_tac. Qed.
Lemma fetchTransactions_ends a : yields false (fetchTransactions w a).
Proof. yields_tac. Qed.
Lemma resolveAddress_ends p name : yields false (resolveAddress w p name).
Proof. yields_tac. Qed.
Lemma lookupPrelude_ends name : yields false (lookupPrelude w name).
Proof. yields_tac. Qed.
End Steps.

(** *** Running the lookup *)

Lemma truthy_nonempty s : s <> "" -> truthy s = true.
Proof. destruct s; [congruence | reflexivity]. Qed.

Lemma after_eq {A : Type} (m : M A) st c st' : m st = (c, st') -> after m st = st'.
Proof. unfold after. now intros ->. Qed.

(** A step that ends normally is followed by the next one, from the
    state it leaves. *)
Lemma bind_after {B : Type} (m : M unit) (k : M B) st :
  yields false m -> bind m (fun _ => k) st = k (after m st).
Proof.
  intros H. specialize (H st). unfold bind, after.
  destruct (m st) as [[[]| |e] st1]; simpl in *;
    [reflexivity | contradiction | discriminate].
Qed.

Lemma doLookup_unfold w name st :
  doLookup w name st =
    if truthy name
    then function (lookupGuarded w name) (after (lookupPrelude w name) st)
    else (Normal tt, st).
Proof.
  unfold doLookup. destruct (truthy name); [|reflexivity]. reflexivity.
Qed.

Lemma lookupGuarded_unfold w name st :
  function (lookupGuarded w name) st =
    match lookupBody w name st with
    | (Throw e, st2) =>
        (Normal tt, after (setLoading false)
                      (after (addLog w error ("Lookup failed: " +++ e)) st2))
    | (_, st2) => (Normal tt, after (setLoading false) st2)
    end.
Proof.
  unfold function, lookupGuarded, tryFinally, tryCatch.
  destruct (lookupBody w name st) as [[[]| |e] st2]; reflexivity.
Qed.

(** The short-circuit, run: what the lookup leaves when no address is
    resolved. *)
Lemma short_circuit_run w name st :
  name <> "" -> resolvesNoAddress w name ->
  exists e mid,
    doLookup w name st =
      (Normal tt,
       mkState (e :: mid ++ logs st) None [] false true
               (ReqResolveName name :: requests st))
    /\ levelText e = (error, noAddressText name)
    /\ Forall (fun e' => text e' <> noAddressText name) mid.
Proof.
  intros Hname (provider & Hp & Ha & Hr).
  rewrite doLookup_unfold, (truthy_nonempty _ Hname), lookupGuarded_unfold.
  unfold lookupBody, resolveAddress. fold rpcUrl. rewrite Hp, Ha.
  unfold noAddressText.
  destruct (resolveName provider name) as [r|err] eqn:Er;
    destruct (namehash w name) as [nh|nherr] eqn:En.
  all: unfold bind, lift, tryCatch, await, after, lookupPrelude, logNamehash,
         requireAddress, bind, lift, tryCatch; cbn -[String.append];
       rewrite ?Er, ?En; cbn -[String.append];
       rewrite ?Hr; cbn -[String.append].
  all: eexists;
       first [ eexists [_; _; _]; split; [reflexivity|]
             | eexists [_; _]; split; [reflexivity|] ];
       (split; [reflexivity|]).
  all: repeat constructor; cbn; discriminate.
Qed.

(** *** The short-circuit *)

(** C1.  For every non-empty input for which no address is resolved,
    the lookup ends with the error entry [No address available for
    {input}] as its newest log entry, the only entry of the lookup with
    that text; Profile is null, and the name resolution is the only
    request sent: no balance, diagnostic, reverse-lookup, resolver or
    transaction step runs. *)
Theorem short_circuit_no_address (w : World) (name : string) (st : State) :
  name <> "" ->
  resolvesNoAddress w name ->
  exists e mid st',
    doLookup w name st = (Normal tt, st')
    /\ logs st' = e :: mid ++ logs st
    /\ levelText e = (error, "No address available for " +++ name)
    /\ Forall (fun e' => text e' <> "No address available for " +++ name) mid
    /\ profile st' = None
    /\ transactions st' = []
    /\ loading st' = false
    /\ requests st' = ReqResolveName name :: requests st.
Proof.
  intros Hname Hno.
  destruct (short_circuit_run w name st Hname Hno) as (e & mid & Hrun & He & Hmid).
  exists e, mid. eexists. split; [exact Hrun|].
  repeat split; assumption.
Qed.

Lemma short_circuit_no_address_witness :
  "nobody.eth" <> ""
  /\ resolvesNoAddress sampleWorld "nobody.eth"
  /\ exists e mid st',
       doLookup sampleWorld "nobody.eth" used = (Normal tt, st')
       /\ logs st' = e :: mid ++ logs used
       /\ levelText e = (error, "No address available for nobody.eth")
       /\ Forall (fun e' => text e' <> "No address available for nobody.eth") mid
       /\ profile st' = None
       /\ transactions st' = []
       /\ loading st' = false
       /\ requests st' = ReqResolveName "nobody.eth" :: requests used.
Proof.
  assert (H1 : "nobody.eth" <> "") by discriminate.
  assert (H2 : resolvesNoAddress sampleWorld "nobody.eth").
  { exists sampleProvider. repeat split; reflexivity. }
  split; [exact H1|]. split; [exact H2|].
  exact (short_circuit_no_address sampleWorld "nobody.eth" used H1 H2).
Defined.

(** C10.  For every non-empty input the statements before the first
    request set Profile to null and the Transaction sequence to empty;
    the short-circuit step itself leaves the Transaction sequence as it
    finds it; so after a lookup that resolves no address the Transaction
    sequence is empty and Profile is null, whatever the earlier lookup
    left. *)
Theorem lookup_resets_first (w : World) (name : string) (st : State) :
  name <> "" ->
  profile (after (lookupPrelude w name) st) = None
  /\ transactions (after (lookupPrelude w name) st) = []
  /\ requests (after (lookupPrelude w name) st) = requests st
  /\ doLookup w name st =
       function (lookupGuarded w name) (after (lookupPrelude w name) st)
  /\ (forall r st2,
        transactions (after (requireAddress w name r) st2) = transactions st2)
  /\ (resolvesNoAddress w name ->
      transactions (after (doLookup w name) st) = []
      /\ profile (after (doLookup w name) st) = None).
Proof.
  intros Hname. repeat split; try reflexivity.
  - now rewrite doLookup_unfold, (truthy_nonempty _ Hname).
  - intros r st2. unfold requireAddress. destruct (truthyOpt r); reflexivity.
  - destruct (short_circuit_run w name st Hname H) as (e & mid & Hrun & _).
    now rewrite (after_eq _ _ _ _ Hrun).
  - destruct (short_circuit_run w name st Hname H) as (e & mid & Hrun & _).
    now rewrite (after_eq _ _ _ _ Hrun).
Qed.

Lemma lookup_resets_first_witness :
  "nobody.eth" <> ""
  /\ transactions used <> []
  /\ transactions (after (lookupPrelude sampleWorld "nobody.eth") used) = []
  /\ transactions (after (doLookup sampleWorld "nobody.eth") used) = []
  /\ profile (after (doLookup sampleWorld "nobody.eth") used) = None.
Proof.
  assert (H1 : "nobody.eth" <> "") by discriminate.
  destruct (lookup_resets_first sampleWorld "nobody.eth" used H1)
    as (_ & Ht & _ & _ & _ & Hs).
  split; [exact H1|]. split; [discriminate|]. split; [exact Ht|].
  apply Hs. exists sampleProvider. repeat split; reflexivity.
Defined.

(** *** Completion *)

(** C6.  For every input, world and state the lookup ends normally: no
    exception reaches the caller.  For a non-empty input the
    in-progress flag is false at the end, and an exception that escapes
    the body adds exactly one entry to the log, an error entry; for an
    empty input nothing changes. *)
Theorem doLookup_never_throws (w : World) (name : string) (st : State) :
  exists st',
    doLookup w name st = (Normal tt, st')
    /\ if truthy name then
         loading st' = false
         /\ match lookupBody w name (after (lookupPrelude w name) st) with
            | (Throw e, st2) =>
                map levelText (logs st') =
                  (error, "Lookup failed: " +++ e) :: map levelText (logs st2)
            | (_, st2) => logs st' = logs st2
            end
       else st' = st.
Proof.
  rewrite doLookup_unfold. destruct (truthy name).
  - rewrite lookupGuarded_unfold.
    destruct (lookupBody w name (after (lookupPrelude w name) st))
      as [[[]| |e] st2]; eexists; (split; [reflexivity|]);
      split; reflexivity.
  - exists st. split; reflexivity.
Qed.

(** The outer handler is reached: when the JSON-RPC client cannot be
    built, the body throws and the lookup logs the one error entry. *)
Example doLookup_catches_provider_failure :
  doLookup noProviderWorld "vitalik.eth" initial =
    (Normal tt,
     mkState [mkLog someTime error "Lookup failed: Error: unsupported protocol";
              mkLog someTime info "Resolving ENS name: vitalik.eth"]
             None [] false true []).
Proof. reflexivity. Qed.

(** *** What steps keep *)

Section KeepsFacts.
Variable R : State -> State -> Prop.
Hypothesis R_refl : forall st, R st st.
Hypothesis R_trans : forall a b c, R a b -> R b c -> R a c.

Lemma keeps_ret {A : Type} (a : A) : keeps R (ret a).
Proof. intros st. apply R_refl. Qed.

Lemma keeps_return {A : Type} : keeps R (@return_ A).
Proof. intros st. apply R_refl. Qed.

Lemma keeps_throw {A : Type} e : keeps R (@throw A e).
Proof. intros st. apply R_refl. Qed.

Lemma keeps_lift {A : Type} (r : result A) : keeps R (lift r).
Proof. intros st. unfold after, lift. destruct r; apply R_refl. Qed.

Lemma keeps_bind {A B : Type} (m : M A) (f : A -> M B) :
  keeps R m -> (forall a, keeps R (f a)) -> keeps R (bind m f).
Proof.
  intros Hm Hf st. specialize (Hm st). unfold after, bind in *.
  destruct (m st) as [[a| |e] st1]; simpl in *; auto.
  apply R_trans with st1; [exact Hm | apply Hf].
Qed.

Lemma keeps_tryCatch {A : Type} (m : M A) (h : string -> M A) :
  keeps R m -> (forall e, keeps R (h e)) -> keeps R (tryCatch m h).
Proof.
  intros Hm Hh st. specialize (Hm st). unfold after, tryCatch in *.
  destruct (m st) as [[a| |e] st1]; simpl in *; auto.
  apply R_trans with st1; [exact Hm | apply Hh].
Qed.

Lemma keeps_tryFinally {A : Type} (m : M A) (f : M unit) :
  keeps R m -> keeps R f -> keeps R (tryFinally m f).
Proof.
  intros Hm Hf st. specialize (Hm st). unfold after, tryFinally in *.
  destruct (m st) as [c st1]. specialize (Hf st1). unfold after in Hf.
  destruct (f st1) as [[[]| |e] st2]; simpl in *;
    apply R_trans with st1; assumption.
Qed.

Lemma keeps_function (m : M unit) : keeps R m -> keeps R (function m).
Proof.
  intros Hm st. specialize (Hm st). unfold after, function in *.
  destruct (m st) as [[[]| |e] st1]; exact Hm.
Qed.

Lemma keeps_forOf {A : Type} (l : list A) (body : A -> M unit) :
  (forall a, keeps R (body a)) -> keeps R (forOf l body).
Proof.
  intros Hb. induction l as [|a l IH]; simpl.
  - apply keeps_ret.
  - apply keeps_bind; [apply Hb | intros _; exact IH].
Qed.

(** The state after [await q r], whatever [r] is. *)
Lemma keeps_await {A : Type} q (r : result A) :
  (forall st, R st (mkState (logs st) (profile st) (transactions st)
                            (loading st) (showModal st) (q :: requests st))) ->
  keeps R (await q r).
Proof. intros H st. unfold after, await. destruct r; apply H. Qed.
End KeepsFacts.

(** Takes a goal [keeps R m] apart along the structure of [m]; [refl]
    and [trans] are the proofs that [R] is a preorder, [prim] solves the
    goals for the assignments to the state, [sent] those for a request. *)
Ltac keeps_tac refl trans prim sent :=
  autounfold with steps;
  repeat (intros;
    lazymatch goal with
    | |- keeps _ (bind _ _) => apply (keeps_bind _ trans)
    | |- keeps _ (tryCatch _ _) => apply (keeps_tryCatch _ trans)
    | |- keeps _ (tryFinally _ _) => apply (keeps_tryFinally _ trans)
    | |- keeps _ (function _) => apply keeps_function
    | |- keeps _ (forOf _ _) => apply (keeps_forOf _ refl trans)
    | |- keeps _ (ret _) => apply (keeps_ret _ refl)
    | |- keeps _ return_ => apply (keeps_return _ refl)
    | |- keeps _ (throw _) => apply (keeps_throw _ refl)
    | |- keeps _ (lift _) => apply (keeps_lift _ refl)
    | |- keeps _ (await _ _) => apply keeps_await; sent
    | |- keeps _ (if ?b then _ else _) => destruct b
    | |- keeps _ (match ?x with _ => _ end) => destruct x
    | |- keeps _ _ => prim
    end).

(** **** Requests *)

Lemma sendsOnly_refl P st : sendsOnly P st st.
Proof. exists []. split; [reflexivity | constructor]. Qed.

Lemma sendsOnly_trans P a b c :
  sendsOnly P a b -> sendsOnly P b c -> sendsOnly P a c.
Proof.
  intros (s1 & E1 & F1) (s2 & E2 & F2). exists (s2 ++ s1). split.
  - now rewrite E2, E1, app_assoc.
  - apply Forall_app. split; assumption.
Qed.

Ltac sends_tac :=
  keeps_tac (sendsOnly_refl notResolveName) (sendsOnly_trans notResolveName)
            ltac:(intros ?; exists []; split; [reflexivity | constructor])
            ltac:(intros ?; eexists [_]; split;
                  [reflexivity | repeat constructor]).

(** **** The profile *)

Lemma sameProfile_refl st : sameProfile st st.
Proof. reflexivity. Qed.

Lemma sameProfile_trans a b c :
  sameProfile a b -> sameProfile b c -> sameProfile a c.
Proof. unfold sameProfile. congruence. Qed.

Ltac same_tac :=
  keeps_tac sameProfile_refl sameProfile_trans
            ltac:(intros ?; reflexivity) ltac:(intros ?; reflexivity).

Lemma keepsTextUnset_refl st : keepsTextUnset st st.
Proof. intros H. exact H. Qed.

Lemma keepsTextUnset_trans a b c :
  keepsTextUnset a b -> keepsTextUnset b c -> keepsTextUnset a c.
Proof. unfold keepsTextUnset. auto. Qed.

Ltac unset_tac :=
  keeps_tac keepsTextUnset_refl keepsTextUnset_trans
            ltac:(intros ? ?; assumption) ltac:(intros ? ?; assumption).

Section StepsKeep.
Variable w : World.

Lemma resolveAddress_unset p name :
  keeps keepsTextUnset (resolveAddress w p name).
Proof. unset_tac. Qed.
Lemma logNamehash_unset name : keeps keepsTextUnset (logNamehash w name).
Proof. unset_tac. Qed.
Lemma fetchBalance_unset p a : keeps keepsTextUnset (fetchBalance w p a).
Proof. unset_tac. Qed.
Lemma fetchCode_unset p a : keeps keepsTextUnset (fetchCode w p a).
Proof. unset_tac. Qed.
Lemma fetchTransactionCount_unset p a :
  keeps keepsTextUnset (fetchTransactionCount w p a).
Proof. unset_tac. Qed.
Lemma reverseLookup_unset p a : keeps keepsTextUnset (reverseLookup w p a).
Proof. unset_tac. Qed.
Lemma obtainResolver_unset p name :
  keeps keepsTextUnset (obtainResolver w p name).
Proof. unset_tac. Qed.
Lemma fetchContentHash_unset r : keeps keepsTextUnset (fetchContentHash w r).
Proof. unset_tac. Qed.

Lemma fetchResolverAddress_same r :
  keeps sameProfile (fetchResolverAddress w r).
Proof. same_tac. Qed.
Lemma fetchCoins_same r :
  keeps sameProfile (forOf coinTypes (fetchCoinAddress w r)).
Proof. same_tac. Qed.
Lemma fetchTransactions_same a : keeps sameProfile (fetchTransactions w a).
Proof. same_tac. Qed.
End StepsKeep.

(** *** Address inputs *)

(** C8.  For every input that has the address format, step 2 takes the
    input itself as the resolved address, sending nothing, and no
    request of the whole lookup is a name resolution. *)
Theorem address_input_skips_resolution (w : World) (name : string) (st : State) :
  name <> "" ->
  isAddress w name = true ->
  (forall provider st1,
      resolveAddress w provider name st1 =
        (Normal (Some name),
         after (addLog w info ("Input is an address: " +++ name)) st1))
  /\ exists sent,
       requests (after (doLookup w name) st) = sent ++ requests st
       /\ Forall notResolveName sent.
Proof.
  intros _ Ha. split.
  - intros provider st1. unfold resolveAddress. now rewrite Ha.
  - assert (K : keeps (sendsOnly notResolveName) (doLookup w name)).
    { unfold doLookup, lookupGuarded, lookupBody, resolveAddress.
      rewrite Ha. sends_tac. }
    exact (K st).
Qed.

Lemma address_input_skips_resolution_witness :
  vitalik <> ""
  /\ isAddress sampleWorld vitalik = true
  /\ exists sent,
       requests (after (doLookup sampleWorld vitalik) used) = sent ++ requests used
       /\ Forall notResolveName sent.
Proof.
  assert (H1 : vitalik <> "") by discriminate.
  assert (H2 : isAddress sampleWorld vitalik = true) by reflexivity.
  split; [exact H1|]. split; [exact H2|].
  exact (proj2 (address_input_skips_resolution sampleWorld vitalik used H1 H2)).
Defined.

(** *** The text records *)

Lemma replace_prefix s pat rep :
  startsWith s pat = true ->
  replace s pat rep = rep +++ drop (String.length pat) s.
Proof.
  unfold startsWith. intros H. destruct s; cbn [replace]; now rewrite H.
Qed.

Lemma avatarUrl_normalizeAvatar v :
  (if startsWith v "ipfs://"
   then replace v "ipfs://" "https://ipfs.io/ipfs/" else v)
  = normalizeAvatar v.
Proof.
  unfold normalizeAvatar. destruct (startsWith v "ipfs://") eqn:E;
    [|reflexivity].
  now rewrite replace_prefix.
Qed.

Section TextRecords.
Variables (w : World) (r : Resolver.t).

Lemma fetchName_run st :
  fetchName w r st =
    (Normal tt, textStep w "name" Profile.setName (textRecord r "name") st).
Proof.
  unfold fetchName, textRecord, tryCatch, bind, await.
  destruct (Resolver.getText r "name") as [[[|c v]|]|e]; reflexivity.
Qed.

Lemma fetchUrl_run st :
  fetchUrl w r st =
    (Normal tt, textStep w "url" Profile.setUrl (textRecord r "url") st).
Proof.
  unfold fetchUrl, textRecord, tryCatch, bind, await.
  destruct (Resolver.getText r "url") as [[[|c v]|]|e]; reflexivity.
Qed.

Lemma fetchAvatar_run st :
  fetchAvatar w r st =
    (Normal tt,
     textStep w "avatar" Profile.setAvatar
              (option_map normalizeAvatar (textRecord r "avatar")) st).
Proof.
  unfold fetchAvatar, textRecord, tryCatch, bind, await.
  destruct (Resolver.getText r "avatar") as [[v|]|e]; try reflexivity.
  destruct (truthy v) eqn:T; unfold truthyOpt; rewrite T; [|reflexivity].
  cbn [String_ option_map textStep]. now rewrite avatarUrl_normalizeAvatar.
Qed.

Lemma fetchDescription_run st :
  fetchDescription w r st =
    (Normal tt,
     textStep w "description" Profile.setDescription
              (textRecord r "description") st).
Proof.
  unfold fetchDescription, textRecord, tryCatch, bind, await.
  destruct (Resolver.getText r "description") as [[[|c v]|]|e]; reflexivity.
Qed.

(** The four fetches run one after the other, whatever each gives. *)
Lemma fetchProfileFields_run st :
  fetchProfileFields w r st =
    (Normal tt,
     textStep w "description" Profile.setDescription
       (textRecord r "description")
       (textStep w "avatar" Profile.setAvatar
          (option_map normalizeAvatar (textRecord r "avatar"))
          (textStep w "url" Profile.setUrl (textRecord r "url")
             (textStep w "name" Profile.setName (textRecord r "name") st)))).
Proof.
  unfold fetchProfileFields, tryCatch, bind.
  now rewrite fetchName_run, fetchUrl_run, fetchAvatar_run,
    fetchDescription_run.
Qed.
End TextRecords.

(** With a resolver whose ["avatar"] fetch throws, the description is
    fetched and merged all the same, and nothing is logged for the
    avatar. *)
Example avatar_failure_isolated :
  fetchProfileFields sampleWorld brokenAvatarResolver initial =
    (Normal tt,
     mkState [mkLog someTime info "profile.description = hello"]
             (Some (Profile.setDescription (Some "hello") Profile.empty))
             [] false false
             [ReqGetText "description"; ReqGetText "avatar"; ReqGetText "url";
              ReqGetText "name"]).
Proof. reflexivity. Qed.

(** *** From the input to the text records *)

Lemma bind_normal {A B : Type} (m : M A) (f : A -> M B) st a st1 :
  m st = (Normal a, st1) -> bind m f st = f a st1.
Proof. unfold bind. now intros ->. Qed.

Lemma run_unit (m : M unit) st :
  yields false m -> m st = (Normal tt, after m st).
Proof.
  intros H. specialize (H st). unfold after.
  destruct (m st) as [[[]| |e] st1]; simpl in *;
    [reflexivity | contradiction | discriminate].
Qed.

Lemma after_bind {B : Type} (m : M unit) (k : M B) st :
  yields false m -> after (bind m (fun _ => k)) st = after k (after m st).
Proof. intros H. unfold after at 1. now rewrite bind_after. Qed.

Lemma textUnset_prelude w name st :
  textUnset (profile (after (lookupPrelude w name) st)).
Proof. repeat split. Qed.

Lemma resolveAddress_run w provider name address st :
  resolvesAddress w provider name address ->
  exists st2,
    resolveAddress w provider name st = (Normal (Some address), st2)
    /\ profile st2 = profile st.
Proof.
  intros (_ & _ & H). unfold resolveAddress.
  destruct (isAddress w name).
  - subst address. eexists. split; reflexivity.
  - unfold tryCatch, bind, await. rewrite H. eexists. split; reflexivity.
Qed.

Lemma requireAddress_run w name address st :
  address <> "" ->
  requireAddress w name (Some address) st = (Normal address, st).
Proof.
  intros H. unfold requireAddress, truthyOpt.
  now rewrite (truthy_nonempty _ H).
Qed.

Lemma obtainResolver_run w provider name r st :
  getResolver provider name = Ok (Some r) ->
  exists st2,
    obtainResolver w provider name st = (Normal (Some r), st2)
    /\ (textUnset (profile st) -> textUnset (profile st2)).
Proof.
  intros H. unfold obtainResolver, tryCatch, bind, await. rewrite H.
  eexists. split; [reflexivity|]. intros U. exact U.
Qed.

(** When an address is resolved and a resolver obtained, the lookup
    reaches the text records with the four text fields unset, and the
    profile they leave is the profile at the end. *)
Lemma lookup_reaches_text_records w provider name address r st :
  name <> "" ->
  resolvesAddress w provider name address ->
  getResolver provider name = Ok (Some r) ->
  exists stA,
    textUnset (profile stA)
    /\ profile (after (doLookup w name) st) =
         profile (after (fetchProfileFields w r) stA).
Proof.
  intros Hname Hres Hr.
  unfold after at 1.
  rewrite doLookup_unfold, (truthy_nonempty _ Hname), lookupGuarded_unfold.
  pose proof (textUnset_prelude w name st) as U1.
  set (st1 := after (lookupPrelude w name) st) in *.
  unfold lookupBody. fold rpcUrl.
  destruct (resolveAddress_run w provider name address st1 Hres)
    as (st2 & E2 & P2).
  destruct Hres as (Hp & Hne & _). rewrite Hp.
  change (bind (lift (Ok provider)) ?f st1) with (f provider st1).
  cbv beta.
  rewrite (bind_normal _ _ _ _ _ E2).
  rewrite bind_after by apply logNamehash_ends.
  rewrite (bind_normal _ _ _ _ _ (requireAddress_run w name address _ Hne)).
  rewrite bind_after by apply fetchBalance_ends.
  rewrite bind_after by apply fetchCode_ends.
  rewrite bind_after by apply fetchTransactionCount_ends.
  rewrite bind_after by apply reverseLookup_ends.
  match goal with
  | |- context [bind (obtainResolver w provider name) _ ?s] =>
      set (st3 := s);
      destruct (obtainResolver_run w provider name r st3 Hr)
        as (st4 & E4 & U4)
  end.
  rewrite (bind_normal _ _ _ _ _ E4).
  rewrite bind_after by apply resolverRecords_ends.
  rewrite (run_unit (fetchTransactions w address))
    by apply fetchTransactions_ends.
  cbn [snd].
  unfold resolverRecords.
  rewrite after_bind by apply fetchContentHash_ends.
  rewrite after_bind by apply fetchProfileFields_ends.
  rewrite after_bind by apply fetchResolverAddress_ends.
  exists (after (fetchContentHash w r) st4). split.
  - apply fetchContentHash_unset, U4. unfold st3.
    apply reverseLookup_unset, fetchTransactionCount_unset, fetchCode_unset,
      fetchBalance_unset, logNamehash_unset.
    unfold textUnset. rewrite P2. exact U1.
  - change (profile (after (setLoading false) ?s)) with (profile s).
    rewrite fetchTransactions_same, fetchCoins_same, fetchResolverAddress_same.
    reflexivity.
Qed.

Lemma fetchProfileFields_profile w r st :
  profile (after (fetchProfileFields w r) st) = mergeText r (profile st).
Proof.
  unfold after. rewrite fetchProfileFields_run. unfold mergeText.
  destruct (textRecord r "name") as [n|], (textRecord r "url") as [u|],
    (textRecord r "avatar") as [a|], (textRecord r "description") as [d|];
    cbn [snd option_map textStep profile]; try reflexivity;
    destruct (profile st) as [[]|]; reflexivity.
Qed.

Lemma mergeText_avatar r p v :
  textRecord r "avatar" = Some v ->
  exists q, mergeText r p = Some q
            /\ Profile.avatar q = Some (normalizeAvatar v).
Proof.
  intros H. unfold mergeText. rewrite H.
  destruct (textRecord r "name"), (textRecord r "url"),
    (textRecord r "description"); eexists; split; reflexivity.
Qed.

Lemma normalizeAvatar_ipfs rest :
  normalizeAvatar ("ipfs://" +++ rest) = "https://ipfs.io/ipfs/" +++ rest.
Proof. destruct rest; reflexivity. Qed.

Lemma mergeText_fields r p :
  textUnset p ->
  let q := Profile.orEmpty (mergeText r p) in
  Profile.name q = textRecord r "name"
  /\ Profile.url q = textRecord r "url"
  /\ Profile.avatar q = option_map normalizeAvatar (textRecord r "avatar")
  /\ Profile.description q = textRecord r "description".
Proof.
  intros (Hn & Hu & Ha & Hd). unfold mergeText.
  destruct (textRecord r "name"), (textRecord r "url"),
    (textRecord r "avatar"), (textRecord r "description");
    cbn [Profile.orEmpty Profile.name Profile.url Profile.avatar
         Profile.description merged option_map];
    repeat split; assumption || reflexivity.
Qed.

(** In a lookup that reaches the text records, the four text fields of
    the final profile are what the four fetches gave. *)
Lemma lookup_text_fields w r provider name address st0 :
  name <> "" ->
  resolvesAddress w provider name address ->
  getResolver provider name = Ok (Some r) ->
  let p := Profile.orEmpty (profile (after (doLookup w name) st0)) in
  Profile.name p = textRecord r "name"
  /\ Profile.url p = textRecord r "url"
  /\ Profile.avatar p = option_map normalizeAvatar (textRecord r "avatar")
  /\ Profile.description p = textRecord r "description".
Proof.
  intros Hname Hres Hr.
  destruct (lookup_reaches_text_records w provider name address r st0
              Hname Hres Hr) as (stA & U & E).
  cbv zeta. rewrite E, fetchProfileFields_profile.
  now apply mergeText_fields.
Qed.

Ltac text_case :=
  eexists; (split; [reflexivity|]); repeat split; try reflexivity;
  match goal with
  | |- context [profile ?st] => destruct (profile st) as [[]|]; reflexivity
  end.

(** C5.  The four text fetches are isolated from one another: from
    every state and for every behaviour of the resolver the block ends
    normally, all four requests are sent in order, each field is merged
    exactly when its own fetch gives a non-empty text (the avatar in
    normalized form), the only entries logged are the informational
    entries of the merged fields, and nothing else changes.  In a
    lookup that reaches the block, each of the four fields of the final
    profile is the text its own fetch gave, and is unset when that fetch
    threw or gave nothing. *)
Theorem profile_fields_isolated (w : World) (r : Resolver.t) (st : State) :
  (exists added st',
      fetchProfileFields w r st = (Normal tt, st')
      /\ requests st' =
           [ReqGetText "description"; ReqGetText "avatar"; ReqGetText "url";
            ReqGetText "name"] ++ requests st
      /\ profile st' = mergeText r (profile st)
      /\ logs st' = added ++ logs st
      /\ map levelText added =
           textLog "description" (textRecord r "description")
           ++ textLog "avatar"
                (option_map normalizeAvatar (textRecord r "avatar"))
           ++ textLog "url" (textRecord r "url")
           ++ textLog "name" (textRecord r "name")
      /\ transactions st' = transactions st
      /\ loading st' = loading st
      /\ showModal st' = showModal st)
  /\ forall provider name address st0,
       name <> "" ->
       resolvesAddress w provider name address ->
       getResolver provider name = Ok (Some r) ->
       let p := Profile.orEmpty (profile (after (doLookup w name) st0)) in
       Profile.name p = textRecord r "name"
       /\ Profile.url p = textRecord r "url"
       /\ Profile.avatar p = option_map normalizeAvatar (textRecord r "avatar")
       /\ Profile.description p = textRecord r "description".
Proof.
  split; [|apply lookup_text_fields].
  rewrite fetchProfileFields_run. unfold mergeText.
  destruct (textRecord r "name") as [n|], (textRecord r "url") as [u|],
    (textRecord r "avatar") as [a|], (textRecord r "description") as [d|];
    cbn [option_map textStep textLog app logs profile requests transactions
         loading showModal];
    first [ exists []; solve [text_case]
          | eexists [_]; solve [text_case]
          | eexists [_; _]; solve [text_case]
          | eexists [_; _; _]; solve [text_case]
          | eexists [_; _; _; _]; solve [text_case] ].
Qed.

Lemma profile_fields_isolated_witness :
  let p := Profile.orEmpty
             (profile (after (doLookup sampleWorld "vitalik.eth") used)) in
  Profile.name p = Some "Vitalik"
  /\ Profile.url p = None
  /\ Profile.avatar p = Some "https://ipfs.io/ipfs/Qm123"
  /\ Profile.description p = Some "hello".
Proof.
  assert (H1 : "vitalik.eth" <> "") by discriminate.
  assert (H2 : resolvesAddress sampleWorld sampleProvider "vitalik.eth" vitalik).
  { repeat split. discriminate. }
  assert (H3 : getResolver sampleProvider "vitalik.eth" = Ok (Some sampleResolver))
    by reflexivity.
  exact (proj2 (profile_fields_isolated sampleWorld sampleResolver used)
               sampleProvider "vitalik.eth" vitalik used H1 H2 H3).
Defined.

(** *** The avatar *)

(** C7.  In every lookup that reaches the text records (an address is
    resolved and a resolver obtained) and fetches a non-empty avatar
    text [v], the avatar of the final profile is [v] with a leading
    [ipfs://] replaced by [https://ipfs.io/ipfs/], and [v] itself when
    it does not start with [ipfs://]. *)
Theorem avatar_is_normalized (w : World) (provider : Provider)
        (name address : string) (r : Resolver.t) (v : string) (st : State) :
  name <> "" ->
  resolvesAddress w provider name address ->
  getResolver provider name = Ok (Some r) ->
  Resolver.getText r "avatar" = Ok (Some v) ->
  v <> "" ->
  exists p,
    profile (after (doLookup w name) st) = Some p
    /\ Profile.avatar p = Some (normalizeAvatar v)
    /\ (forall rest, v = "ipfs://" +++ rest ->
                     Profile.avatar p = Some ("https://ipfs.io/ipfs/" +++ rest))
    /\ (startsWith v "ipfs://" = false -> Profile.avatar p = Some v).
Proof.
  intros Hname Hres Hr Hv Hne.
  destruct (lookup_reaches_text_records w provider name address r st
              Hname Hres Hr) as (stA & _ & ->).
  rewrite fetchProfileFields_profile.
  assert (Ht : textRecord r "avatar" = Some v).
  { unfold textRecord. now rewrite Hv, (truthy_nonempty _ Hne). }
  destruct (mergeText_avatar r (profile stA) v Ht) as (q & -> & Hq).
  exists q. split; [reflexivity|]. split; [exact Hq|]. split.
  - intros rest ->. now rewrite Hq, normalizeAvatar_ipfs.
  - intros Hs. rewrite Hq. unfold normalizeAvatar. now rewrite Hs.
Qed.

Lemma avatar_is_normalized_witness :
  exists p,
    profile (after (doLookup sampleWorld "vitalik.eth") used) = Some p
    /\ Profile.avatar p = Some "https://ipfs.io/ipfs/Qm123".
Proof.
  assert (H1 : "vitalik.eth" <> "") by discriminate.
  assert (H2 : resolvesAddress sampleWorld sampleProvider "vitalik.eth" vitalik).
  { repeat split. discriminate. }
  assert (H3 : getResolver sampleProvider "vitalik.eth" = Ok (Some sampleResolver))
    by reflexivity.
  assert (H4 : Resolver.getText sampleResolver "avatar" = Ok (Some "ipfs://Qm123"))
    by reflexivity.
  assert (H5 : "ipfs://Qm123" <> "") by discriminate.
  destruct (avatar_is_normalized sampleWorld sampleProvider "vitalik.eth"
              vitalik sampleResolver "ipfs://Qm123" used H1 H2 H3 H4 H5)
    as (p & Hp & _ & Hi & _).
  exists p. split; [exact Hp|]. exact (Hi "Qm123" eq_refl).
Defined.

(** An avatar that starts with [https://] is merged as it is. *)
Example https_avatar_unchanged :
  profile (after (fetchProfileFields sampleWorld httpsAvatarResolver) initial)
  = Some (Profile.setAvatar (Some "https://example.com/a.png") Profile.empty).
Proof. reflexivity. Qed.

(** *** The transaction history *)

Lemma toTransaction_mapsTo w raw tx :
  toTransaction w raw = Ok tx <-> mapsTo w raw tx.
Proof.
  unfold toTransaction, mapsTo. split.
  - destruct (getProp raw "hash") as [h|]; [|discriminate].
    destruct (getProp raw "from") as [f|]; [|discriminate].
    destruct (getProp raw "to") as [t|]; [|discriminate].
    destruct (getProp raw "value") as [v|]; [|discriminate].
    destruct (formatEther w v) as [ether|] eqn:Ev; [|discriminate].
    destruct (getProp raw "blockNumber") as [b|]; [|discriminate].
    destruct (parseInt w b) as [block|] eqn:Eb; [|discriminate].
    destruct (getProp raw "timeStamp") as [ts|]; [|discriminate].
    destruct (parseInt w ts) as [time|] eqn:Et; [|discriminate].
    intros [= <-]. cbn. repeat split; eauto.
  - intros (-> & -> & -> & (v & -> & Hv) & (b & -> & Hb) & (t & -> & Ht)).
    rewrite Hv, Hb, Ht. now destruct tx.
Qed.

Lemma mapResult_Forall2 {A B : Type} (f : A -> result B) l bs :
  mapResult f l = Ok bs <-> Forall2 (fun a b => f a = Ok b) l bs.
Proof.
  revert bs. induction l as [|a l IH]; intros bs; simpl.
  - split; [intros [= <-]; constructor | now inversion 1].
  - split.
    + destruct (f a) as [b|] eqn:Ea; [|discriminate].
      destruct (mapResult f l) as [bs'|]; [|discriminate].
      intros [= <-]. constructor; [exact Ea | now apply IH].
    + inversion 1 as [|a' b l' bs' Hb Hl]; subst. rewrite Hb.
      apply IH in Hl. now rewrite Hl.
Qed.

Lemma converts_mapsTo w elems txs :
  mapResult (toTransaction w) elems = Ok txs <-> Forall2 (mapsTo w) elems txs.
Proof.
  rewrite mapResult_Forall2. split; intros H;
    (eapply Forall2_impl; [|exact H]); intros a b; apply toTransaction_mapsTo.
Qed.

Ltac run_tx :=
  unfold after, fetchTransactions, isTxList, tryCatch, bind, await, lift,
    throw, newest.

Section TransactionHistory.
Variables (w : World) (address : string) (st : State).
Hypothesis address_nonempty : address <> "".

Let st' := after (fetchTransactions w address) st.

Lemma tx_success data elems txs :
  answers w address data ->
  getProp data "status" = Ok (VString "1") ->
  getProp data "result" = Ok (VArray elems) ->
  mapResult (toTransaction w) elems = Ok txs ->
  transactions st' = txs
  /\ newest st' =
       Some (info, "Found " +++ ofNat (List.length txs)
                     +++ " recent transactions").
Proof.
  intros (response & Hf & Hj) Hs Hr Hm. unfold st'. run_tx.
  rewrite (truthy_nonempty _ address_nonempty), Hf, Hj, Hs.
  cbn [strictEqString String.eqb Ascii.eqb Bool.eqb].
  rewrite Hr. cbn [isTruthy isArray]. rewrite Hm.
  split; reflexivity.
Qed.

Lemma not_tx_list status result :
  status <> VString "1" \/ isArray result = false ->
  (if strictEqString status "1"
   then if isTruthy result then isArray result else false
   else false) = false.
Proof.
  intros Hno. destruct (strictEqString status "1") eqn:E; [|reflexivity].
  destruct Hno as [Hno|Hno].
  - destruct status; try discriminate. cbn in E.
    apply String.eqb_eq in E. now subst.
  - rewrite Hno. now destruct (isTruthy result).
Qed.

(** A body without a list of transactions reaches the conversion of
    its message. *)
Lemma tx_message data message :
  answers w address data ->
  noTxList data ->
  getProp data "message" = Ok message ->
  forall r,
    ToString w (messageOf message) = r ->
    transactions st' = []
    /\ newest st' =
         Some (match r with
               | Ok text =>
                   (info,
                    "No transactions found or Etherscan API error: "
                      +++ text)
               | Err e =>
                   (error, "Failed to fetch transaction history: " +++ e)
               end).
Proof.
  intros (response & Hf & Hj) (status & result & Hs & Hr & Hno) Hm r Hto.
  unfold messageOf in Hto. pose proof (not_tx_list status result Hno) as Hok.
  unfold st'. run_tx.
  rewrite (truthy_nonempty _ address_nonempty), Hf, Hj, Hs.
  cbv beta iota.
  rewrite Hr. cbv beta iota.
  destruct (strictEqString status "1"); cbv beta iota;
    [destruct (isTruthy result); cbv beta iota; [rewrite Hok|]|];
    cbv beta iota; rewrite Hm; cbv beta iota; rewrite Hto;
    destruct r; (split; reflexivity).
Qed.

Lemma tx_throws e :
  txThrows w address e ->
  transactions st' = []
  /\ newest st' =
       Some (error, "Failed to fetch transaction history: " +++ e).
Proof.
  unfold st'.
  intros [Hf|[(response & Hf & Hj)
             |[(data & (response & Hf & Hj) & Hs)
              |[(data & elems & (response & Hf & Hj) & Hs & Hr & Hm)
               |(data & message & Ha & Hno & Hm & Hto)]]]];
    [ | | | | exact (tx_message data message Ha Hno Hm (Err e) Hto) ];
    run_tx; rewrite (truthy_nonempty _ address_nonempty), Hf;
    [ | rewrite Hj | rewrite Hj, Hs | rewrite Hj, Hs ].
  1-3: split; reflexivity.
  cbn [strictEqString String.eqb Ascii.eqb Bool.eqb].
  rewrite Hr. cbn [isTruthy isArray]. rewrite Hm.
  split; reflexivity.
Qed.
End TransactionHistory.

(** C4 (as amended).  For every world, state and resolved address the
    fetch of the transaction history ends normally and leaves Profile
    alone, and:
    - when the body has status ["1"] and an array result of which every
      raw record converts (the value to an ether text, block number and
      time stamp converted to a text and parsed), the Transaction
      sequence is replaced by the converted records, in order, and an
      informational entry is logged;
    - when the body is read, the status is not ["1"] or the result is
      not an array, and the message of the body (or ["Unknown error"]
      in its place) converts to a text, an informational entry with
      that text is logged and the Transaction sequence is empty;
    - when an exception is thrown, by the transport, by the decoding,
      by reading a [null] body, by the conversion of a record or by the
      conversion of the message to a text, an error entry is logged and
      the Transaction sequence is empty. *)
Theorem transaction_history_outcomes (w : World) (address : string) (st : State) :
  address <> "" ->
  fetchTransactions w address st =
    (Normal tt, after (fetchTransactions w address) st)
  /\ profile (after (fetchTransactions w address) st) = profile st
  /\ (forall data elems txs,
        answers w address data ->
        getProp data "status" = Ok (VString "1") ->
        getProp data "result" = Ok (VArray elems) ->
        Forall2 (mapsTo w) elems txs ->
        transactions (after (fetchTransactions w address) st) = txs
        /\ newest (after (fetchTransactions w address) st) =
             Some (info, "Found " +++ ofNat (List.length txs)
                           +++ " recent transactions"))
  /\ (forall data message text,
        answers w address data ->
        noTxList data ->
        getProp data "message" = Ok message ->
        ToString w (messageOf message) = Ok text ->
        transactions (after (fetchTransactions w address) st) = []
        /\ newest (after (fetchTransactions w address) st) =
             Some (info,
                   "No transactions found or Etherscan API error: "
                     +++ text))
  /\ (forall e,
        txThrows w address e ->
        transactions (after (fetchTransactions w address) st) = []
        /\ newest (after (fetchTransactions w address) st) =
             Some (error, "Failed to fetch transaction history: " +++ e)).
Proof.
  intros Hne. split; [|split; [|split; [|split]]].
  - apply run_unit, fetchTransactions_ends.
  - apply fetchTransactions_same.
  - intros data elems txs Ha Hs Hr Hm. apply converts_mapsTo in Hm.
    exact (tx_success w address st Hne data elems txs Ha Hs Hr Hm).
  - intros data message text Ha Hno Hm Hto.
    exact (tx_message w address st Hne data message Ha Hno Hm (Ok text) Hto).
  - intros e He. exact (tx_throws w address st Hne e He).
Qed.

Lemma transaction_history_outcomes_witness :
  vitalik <> ""
  /\ transactions (after (fetchTransactions sampleWorld vitalik) used) =
       [mkTransaction (VString "0xabc") (VString vitalik) VNull "1.0"
                      (Num 19000000) (Num 1705000000)]
  /\ newest (after (fetchTransactions noTxWorld vitalik) used) =
       Some (info,
             "No transactions found or Etherscan API error: No transactions found")
  /\ transactions (after (fetchTransactions noTxWorld vitalik) used) = []
  /\ newest (after (fetchTransactions offlineWorld vitalik) used) =
       Some (error,
             "Failed to fetch transaction history: TypeError: Failed to fetch")
  /\ transactions (after (fetchTransactions offlineWorld vitalik) used) = []
  /\ newest (after (fetchTransactions oddMessageWorld vitalik) used) =
       Some (error,
             "Failed to fetch transaction history: TypeError: Cannot convert object to primitive value")
  /\ transactions (after (fetchTransactions oddMessageWorld vitalik) used) = [].
Proof.
  assert (H1 : vitalik <> "") by discriminate.
  destruct (transaction_history_outcomes sampleWorld vitalik used H1)
    as (_ & _ & Hok & _ & _).
  destruct (transaction_history_outcomes noTxWorld vitalik used H1)
    as (_ & _ & _ & Hnone & _).
  destruct (transaction_history_outcomes offlineWorld vitalik used H1)
    as (_ & _ & _ & _ & Hthrow).
  destruct (transaction_history_outcomes oddMessageWorld vitalik used H1)
    as (_ & _ & _ & _ & Hodd).
  split; [exact H1|]. split.
  - refine (proj1 (Hok txListBody [rawTx] _ _ eq_refl eq_refl _)).
    + exists (mkResponse (Ok txListBody)). split; reflexivity.
    + repeat constructor; cbn; eauto.
  - assert (Hn : transactions (after (fetchTransactions noTxWorld vitalik) used)
                 = []
                 /\ newest (after (fetchTransactions noTxWorld vitalik) used) =
                      Some (info,
                            "No transactions found or Etherscan API error: "
                              +++ "No transactions found")).
    { apply (Hnone noTxBody (VString "No transactions found")).
      - exists (mkResponse (Ok noTxBody)). split; reflexivity.
      - exists (VString "0"), (VArray []).
        split; [reflexivity|]. split; [reflexivity|]. left. discriminate.
      - reflexivity.
      - reflexivity. }
    destruct Hn as (Hn1 & Hn2).
    split; [exact Hn2|]. split; [exact Hn1|].
    destruct (Hthrow "TypeError: Failed to fetch" (or_introl eq_refl))
      as (Ht & Hn).
    split; [exact Hn|]. split; [exact Ht|].
    assert (Ho : txThrows oddMessageWorld vitalik
                   "TypeError: Cannot convert object to primitive value").
    { right. right. right. right.
      exists oddMessageBody, (VObject [("toString", VNumber (Num 1))]).
      split; [exists (mkResponse (Ok oddMessageBody)); split; reflexivity|].
      split.
      - exists (VString "0"), (VArray []).
        split; [reflexivity|]. split; [reflexivity|]. left. discriminate.
      - split; reflexivity. }
    destruct (Hodd _ Ho) as (Ht' & Hn').
    split; [exact Hn' | exact Ht'].
Defined.

(** C4, the claim as stated, fails: a body with status ["1"] whose
    array result holds [null] gives no transaction for that record and
    an error entry, since reading a field of [null] throws. *)
Lemma transaction_claim_as_stated_fails :
  fetchTransactions nullRecordWorld vitalik initial =
    (Normal tt,
     mkState
       [mkLog someTime error
          "Failed to fetch transaction history: TypeError: Cannot read properties of null (reading 'hash')";
        mkLog someTime info "Fetching recent transactions from Etherscan..."]
       None [] false false
       [ReqJson; ReqFetch (etherscanUrl nullRecordWorld vitalik)])
  /\ ~ txClaimAsStated nullRecordWorld vitalik initial.
Proof.
  split; [reflexivity|]. intros H.
  destruct (H nullRecordBody [VNull]) as (Hlen & _).
  - exists (mkResponse (Ok nullRecordBody)). split; reflexivity.
  - reflexivity.
  - reflexivity.
  - discriminate Hlen.
Qed.

(** A record whose block number is an object with an own [toString]
    cannot be parsed: the whole history ends in the error entry. *)
Example odd_block_number_throws :
  fetchTransactions oddBlockWorld vitalik initial =
    (Normal tt,
     mkState
       [mkLog someTime error
          "Failed to fetch transaction history: TypeError: Cannot convert object to primitive value";
        mkLog someTime info "Fetching recent transactions from Etherscan..."]
       None [] false false
       [ReqJson; ReqFetch (etherscanUrl oddBlockWorld vitalik)]).
Proof. reflexivity. Qed.

(** A block number beyond [2^53] becomes the double next to it. *)
Example wide_block_number_rounded :
  map blockNumber
      (transactions (after (fetchTransactions wideBlockWorld vitalik) initial))
  = [Num 9007199254740992].
Proof. vm_compute. reflexivity. Qed.

End LookupFacts.


(* ================================================================= *)
(** * Properties of the node colour *)

Module GraphViewFacts.
Import JsString Js GraphView MoreSpec.

Open Scope Z_scope.

Lemma charCode_range u : 0 <= charCode u < 2 ^ 16.
Proof.
  unfold charCode. pose proof (nat_ascii_bounded (high u)).
  pose proof (nat_ascii_bounded (low u)). lia.
Qed.

Lemma charCode_codeUnits s :
  Forall (fun u => charCode u < 256) (codeUnits s).
Proof.
  unfold codeUnits. apply Forall_forall. intros u Hu.
  apply in_map_iff in Hu. destruct Hu as (c & <- & _).
  unfold charCode. cbn [high low]. pose proof (nat_ascii_bounded c).
  change (nat_of_ascii zero) with 0%nat. lia.
Qed.

Lemma roundDouble_small z : Z.abs z < 2 ^ 53 -> roundDouble z = z.
Proof.
  intros H. unfold roundDouble.
  destruct (Z.ltb_spec (Z.abs z) (2 ^ 53)); [reflexivity | lia].
Qed.

Lemma toInt32_range z : - 2 ^ 31 <= toInt32 z < 2 ^ 31.
Proof.
  unfold toInt32. pose proof (Z.mod_pos_bound (z + 2 ^ 31) (2 ^ 32)). lia.
Qed.

Lemma toInt32_small z : - 2 ^ 31 <= z < 2 ^ 31 -> toInt32 z = z.
Proof. intros H. unfold toInt32. rewrite Z.mod_small; lia. Qed.

Lemma toInt32_mod z : toInt32 z mod 2 ^ 32 = z mod 2 ^ 32.
Proof.
  unfold toInt32.
  rewrite <- Zminus_mod_idemp_l, Z.mod_mod by lia.
  rewrite Zminus_mod_idemp_l. f_equal. lia.
Qed.

Lemma shl5_mod h : shl h 5 mod 2 ^ 32 = (32 * h) mod 2 ^ 32.
Proof.
  unfold shl. rewrite toInt32_mod, Z.shiftl_mul_pow2 by lia.
  rewrite <- Zmult_mod_idemp_l, toInt32_mod, Zmult_mod_idemp_l.
  f_equal. lia.
Qed.

Lemma shl5_small h : - 2 ^ 26 <= h < 2 ^ 26 -> shl h 5 = 32 * h.
Proof.
  intros H. unfold shl. rewrite (toInt32_small h) by lia.
  rewrite Z.shiftl_mul_pow2 by lia. rewrite toInt32_small; lia.
Qed.

Lemma shl5_range h : - 2 ^ 31 <= shl h 5 < 2 ^ 31.
Proof. apply toInt32_range. Qed.

Lemma mod_eq_elim a b m :
  m <> 0 -> a mod m = b mod m -> exists k, a = b + k * m.
Proof.
  intros Hm E. exists (a / m - b / m).
  pose proof (Z.div_mod a m Hm). pose proof (Z.div_mod b m Hm). nia.
Qed.

(** One turn of the loop rounds nothing while the hash is small. *)
Lemma step_exact c h :
  Z.abs h + (2 ^ 31 + 2 ^ 16) < 2 ^ 53 ->
  roundDouble (charCode c + roundDouble (shl h 5 - h))
  = charCode c + (shl h 5 - h).
Proof.
  intros H. pose proof (charCode_range c). pose proof (shl5_range h).
  rewrite (roundDouble_small (shl h 5 - h)) by lia.
  apply roundDouble_small. lia.
Qed.

Lemma length_cons_Z {A : Type} (c : A) cs :
  Z.of_nat (List.length (c :: cs)) = Z.of_nat (List.length cs) + 1.
Proof. cbn [List.length]. lia. Qed.

(** One turn of the loop is a multiplication by 31 and an addition,
    modulo [2^32]. *)
Lemma hashLoop_congruent cs : forall h h',
  Z.abs h + Z.of_nat (List.length cs) * (2 ^ 31 + 2 ^ 16) < 2 ^ 53 ->
  h mod 2 ^ 32 = h' mod 2 ^ 32 ->
  hashLoop cs h mod 2 ^ 32 = poly31 cs h' mod 2 ^ 32.
Proof.
  induction cs as [|c cs IH]; intros h h' Hb E; [exact E|].
  rewrite length_cons_Z in Hb.
  cbn [hashLoop poly31].
  pose proof (charCode_range c). pose proof (shl5_range h).
  rewrite step_exact by lia.
  apply IH; [lia|].
  destruct (mod_eq_elim _ _ (2 ^ 32) ltac:(lia) E) as (k & ->).
  destruct (mod_eq_elim _ _ (2 ^ 32) ltac:(lia) (shl5_mod (h' + k * 2 ^ 32)))
    as (j & ->).
  replace (charCode c + (32 * (h' + k * 2 ^ 32) + j * 2 ^ 32
                         - (h' + k * 2 ^ 32)))
    with (31 * h' + charCode c + (31 * k + j) * 2 ^ 32) by ring.
  apply Z_mod_plus_full.
Qed.

Lemma hashLoop_magnitude cs : forall h,
  Z.abs h + Z.of_nat (List.length cs) * (2 ^ 31 + 2 ^ 16) < 2 ^ 53 ->
  Z.abs (hashLoop cs h)
  <= Z.abs h + Z.of_nat (List.length cs) * (2 ^ 31 + 2 ^ 16 - 1).
Proof.
  induction cs as [|c cs IH]; intros h Hb.
  - simpl. lia.
  - rewrite length_cons_Z in *. cbn [hashLoop].
    pose proof (charCode_range c). pose proof (shl5_range h).
    rewrite step_exact by lia.
    specialize (IH (charCode c + (shl h 5 - h))).
    lia.
Qed.

(** While the hash stays small the shift loses nothing: [b] bounds the
    code units and [m] pays for them. *)
Lemma hashLoop_exact b m cs : forall c h,
  Forall (fun u => charCode u < b) (c :: cs) ->
  b <= 30 * m -> 0 <= h ->
  (h + m) * 31 ^ Z.of_nat (List.length cs) <= 2 ^ 26 ->
  hashLoop (c :: cs) h = poly31 (c :: cs) h /\ 0 <= poly31 (c :: cs) h.
Proof.
  induction cs as [|d cs IH]; intros c h Hall Hm Hh Hb.
  - cbn [hashLoop poly31 List.length] in *.
    change (31 ^ Z.of_nat 0) with 1 in Hb.
    pose proof (charCode_range c).
    inversion Hall as [|? ? Hc _]; subst.
    rewrite step_exact by lia. rewrite shl5_small by lia. lia.
  - assert (Hpow : 0 < 31 ^ Z.of_nat (List.length cs))
      by (apply Z.pow_pos_nonneg; lia).
    assert (Hs : 31 ^ Z.of_nat (List.length (d :: cs))
                 = 31 * 31 ^ Z.of_nat (List.length cs)).
    { cbn [List.length]. rewrite Nat2Z.inj_succ, Z.pow_succ_r by lia.
      reflexivity. }
    rewrite Hs in Hb. pose proof (charCode_range c).
    inversion Hall as [|? ? Hc Hrest]; subst.
    change (hashLoop (c :: d :: cs) h)
      with (hashLoop (d :: cs)
              (roundDouble (charCode c + roundDouble (shl h 5 - h)))).
    change (poly31 (c :: d :: cs) h)
      with (poly31 (d :: cs) (31 * h + charCode c)).
    assert (Hsmall : h < 2 ^ 26) by nia.
    rewrite step_exact by lia.
    rewrite shl5_small by lia.
    replace (charCode c + (32 * h - h)) with (31 * h + charCode c) by ring.
    apply IH; [exact Hrest | exact Hm | lia | nia].
Qed.

Lemma name_bound (name : list codeUnit) :
  Z.of_nat (List.length name) <= 2 ^ 21 ->
  Z.abs 0 + Z.of_nat (List.length name) * (2 ^ 31 + 2 ^ 16) < 2 ^ 53.
Proof. intros H. change (Z.abs 0) with 0. lia. Qed.

(** Beyond [2^53] a double holds every second integer, then every
    fourth: odd sums are rounded to the even significand. *)
Example roundDouble_rounds :
  roundDouble (2 ^ 53 + 1) = 2 ^ 53
  /\ roundDouble (2 ^ 53 + 3) = 2 ^ 53 + 4
  /\ roundDouble (- (2 ^ 54 + 2)) = - 2 ^ 54
  /\ roundDouble 9007199254740993 = 9007199254740992.
Proof. repeat split; reflexivity. Qed.

(** X1.  For every name of at most [2^21] code units the hash of
    [getNodeColor] agrees, modulo [2^32], with the hash that multiplies
    by 31 and adds each code unit: no sum of the loop is rounded, and
    the shift only loses multiples of [2^32]. *)
Theorem nameHash_congruent (name : list codeUnit) :
  Z.of_nat (List.length name) <= 2 ^ 21 ->
  nameHash name mod 2 ^ 32 = poly31 name 0 mod 2 ^ 32.
Proof.
  intros Hlen. unfold nameHash.
  apply hashLoop_congruent; [now apply name_bound | reflexivity].
Qed.

Lemma nameHash_congruent_witness :
  Z.of_nat (List.length (codeUnits "vitalik.eth")) <= 2 ^ 21
  /\ nameHash (codeUnits "vitalik.eth") mod 2 ^ 32
     = poly31 (codeUnits "vitalik.eth") 0 mod 2 ^ 32.
Proof.
  assert (H : Z.of_nat (List.length (codeUnits "vitalik.eth")) <= 2 ^ 21)
    by (vm_compute; discriminate).
  split; [exact H|].
  exact (nameHash_congruent (codeUnits "vitalik.eth") H).
Defined.

(** X2.  For a name of at most four code units, or of at most five
    code units that are all below 256, nothing overflows: the hash is
    the multiply-by-31 hash itself, it is not negative, and the hue lies
    in [0, 360). *)
Theorem nameHash_short (name : list codeUnit) :
  (List.length name <= 4)%nat
  \/ ((List.length name <= 5)%nat
      /\ Forall (fun u => charCode u < 256) name) ->
  nameHash name = poly31 name 0
  /\ 0 <= nameHash name
  /\ 0 <= hueOf (nameHash name) < 360.
Proof.
  intros Hlen. unfold nameHash.
  assert (H : hashLoop name 0 = poly31 name 0 /\ 0 <= poly31 name 0).
  { destruct name as [|c cs]; [simpl; lia|].
    destruct Hlen as [Hlen|(Hlen & Hall)]; cbn [List.length] in Hlen.
    - apply (hashLoop_exact (2 ^ 16) 2185); [|lia|lia|].
      + apply Forall_forall. intros u _. apply charCode_range.
      + assert (31 ^ Z.of_nat (List.length cs) <= 31 ^ 3)
          by (apply Z.pow_le_mono_r; lia).
        lia.
    - apply (hashLoop_exact 256 9); [exact Hall|lia|lia|].
      assert (31 ^ Z.of_nat (List.length cs) <= 31 ^ 4)
        by (apply Z.pow_le_mono_r; lia).
      lia. }
  destruct H as (E & Hpos). rewrite E. split; [reflexivity|].
  split; [exact Hpos|]. unfold hueOf. apply Z.rem_bound_pos; lia.
Qed.

Lemma nameHash_short_witness :
  nameHash (codeUnits "A.eth") = 61500012
  /\ hueOf (nameHash (codeUnits "A.eth")) = 132.
Proof.
  assert (H : (List.length (codeUnits "A.eth") <= 4)%nat
              \/ ((List.length (codeUnits "A.eth") <= 5)%nat
                  /\ Forall (fun u => charCode u < 256) (codeUnits "A.eth"))).
  { right. split; [simpl; lia | apply charCode_codeUnits]. }
  destruct (nameHash_short (codeUnits "A.eth") H) as (E & _).
  split; [rewrite E; reflexivity | rewrite E; reflexivity].
Defined.

(** Five code units above 255 overflow the shift: the hash and the hue
    are negative. *)
Example nameHash_five_wide_units :
  let name := map codeUnitOf [20320; 22909; 19990; 30028; 20154] in
  map charCode name = [20320; 22909; 19990; 30028; 20154]
  /\ shl 628018387 5 = -1378248096
  /\ nameHash name = -2006246329
  /\ poly31 name 0 = 19468590151
  /\ getNodeColor name = "hsl(-169, 65%, 55%)".
Proof. repeat split; reflexivity. Qed.

(** X3.  For every name, of fewer than [2^53] code units as every
    string is, the hue is strictly between -360 and 360 and the colour
    is [hsl(hue, 65%, 55%)]; when the name has at most [2^21] code
    units the hash is at most the length of the name times
    [2^31 + 65535] in absolute value, which is below [2^53]. *)
Theorem getNodeColor_hue (name : list codeUnit) :
  Z.of_nat (List.length name) < 2 ^ 53 ->
  - 360 < hueOf (nameHash name) < 360
  /\ getNodeColor name = "hsl(" +++ ofZ (hueOf (nameHash name)) +++ ", 65%, 55%)"
  /\ (Z.of_nat (List.length name) <= 2 ^ 21 ->
      Z.abs (nameHash name)
      <= Z.of_nat (List.length name) * (2 ^ 31 + 65535) < 2 ^ 53).
Proof.
  intros _. split.
  - unfold hueOf.
    destruct (Z_le_gt_dec 0 (nameHash name)) as [Hp|Hn].
    + pose proof (Z.rem_bound_pos (nameHash name) 360 Hp). lia.
    + pose proof (Z.rem_bound_pos (- nameHash name) 360) as H.
      rewrite Z.rem_opp_l' in H. lia.
  - split; [reflexivity|].
    intros Hlen. unfold nameHash.
    pose proof (hashLoop_magnitude name 0 (name_bound name Hlen)) as H.
    change (Z.abs 0) with 0 in H. lia.
Qed.

Lemma getNodeColor_hue_witness :
  getNodeColor (codeUnits "vitalik.eth") = "hsl(-23, 65%, 55%)"
  /\ - 360 < hueOf (nameHash (codeUnits "vitalik.eth")) < 360
  /\ Z.abs (nameHash (codeUnits "vitalik.eth")) <= 11 * (2 ^ 31 + 65535).
Proof.
  assert (H : Z.of_nat (List.length (codeUnits "vitalik.eth")) < 2 ^ 53)
    by (vm_compute; reflexivity).
  destruct (getNodeColor_hue (codeUnits "vitalik.eth") H) as (Hh & Hc & Hm).
  split; [rewrite Hc; reflexivity|]. split; [exact Hh|].
  apply Hm. vm_compute. discriminate.
Defined.

End GraphViewFacts.

(* ================================================================= *)
(** * Further properties of the graph parser *)

Module GraphMore.
Import JsString Js RegExp Graph GraphSpec MoreSpec GraphFacts.

(** *** From a scan to the result *)

Lemma matchedPairs_of_scan input ps :
  ScannedByCode (chars input) ps -> matchedPairs input = Some ps.
Proof.
  intros H. destruct (matchedPairs_total input) as (qs & E & S).
  rewrite E. f_equal. exact (ScannedByCode_functional _ _ S _ H).
Qed.

Lemma parse_of_scan input ps :
  ScannedByCode (chars input) ps ->
  parseGraphInput input =
    Some {| nodes := mapi nodeOf (nodeSetOf ps); edges := map edgeOf ps |}.
Proof. intros H. now apply parseGraphInput_of_pairs, matchedPairs_of_scan. Qed.

Lemma chars_append a b : chars (a +++ b) = chars a ++ chars b.
Proof. induction a as [|c a IH]; simpl; [reflexivity | now rewrite IH]. Qed.

Lemma no_pair_at_other c s t1 t2 rest :
  c <> "("%char -> ~ pairAt [","%char] [")"%char] (c :: s) t1 t2 rest.
Proof. intros N (E & _). injection E as E _. now apply N. Qed.

Lemma pairAt_delimiters s t1 t2 rest :
  pairAt [","%char] [")"%char] s t1 t2 rest ->
  In "("%char s /\ In ","%char s /\ In ")"%char s.
Proof.
  intros (-> & _). repeat split.
  - now left.
  - right. apply in_or_app. right. now left.
  - right. apply in_or_app. right. right. apply in_or_app. right. now left.
Qed.

(** *** Inputs without pairs *)

Lemma scan_without_delimiter s :
  ~ In "("%char s \/ ~ In ","%char s \/ ~ In ")"%char s ->
  ScannedByCode s [].
Proof.
  induction s as [|c s IH]; intros H; [constructor|].
  apply Scanned_skip.
  - intros t1 t2 rest P. apply pairAt_delimiters in P. tauto.
  - apply IH. simpl in H. tauto.
Qed.

Lemma scan_after_junk junk s ps :
  ~ In "("%char junk -> ScannedByCode s ps -> ScannedByCode (junk ++ s) ps.
Proof.
  induction junk as [|c junk IH]; intros H S; [exact S|].
  simpl. apply Scanned_skip.
  - intros t1 t2 rest. apply no_pair_at_other. intros ->. apply H. now left.
  - apply IH; [|exact S]. intros I. apply H. now right.
Qed.

(** *** Sizes *)

Lemma scan_length s ps :
  ScannedByCode s ps -> 5 * List.length ps <= List.length s.
Proof.
  induction 1 as [|c s ps _ _ IH|s t1 t2 rest ps P _ IH]; cbn [List.length].
  - lia.
  - lia.
  - destruct P as (-> & N1 & _ & N2 & _).
    destruct t1 as [|x t1]; [now elim N1|].
    destruct t2 as [|y t2]; [now elim N2|].
    cbn [List.length app]. rewrite !length_app. cbn [List.length].
    rewrite !length_app. cbn [List.length]. lia.
Qed.

Lemma length_Set_add s v : List.length (Set_add s v) <= S (List.length s).
Proof.
  unfold Set_add. destruct (Set_has s v); [lia|].
  rewrite length_app. simpl. lia.
Qed.

Lemma length_addAll l : forall acc,
  List.length (addAll acc l) <= List.length acc + List.length l.
Proof.
  induction l as [|a l IH]; intros acc; [simpl; lia|].
  change (addAll acc (a :: l)) with (addAll (Set_add acc a) l).
  specialize (IH (Set_add acc a)). pose proof (length_Set_add acc a).
  cbn [List.length]. lia.
Qed.

Lemma length_tokens ps : List.length (tokens ps) = 2 * List.length ps.
Proof. induction ps as [|p ps IH]; simpl; lia. Qed.

(** *** Trimmed names *)

Lemma dropWhile_fixed p l :
  match l with [] => True | c :: _ => p c = false end -> dropWhile p l = l.
Proof. destruct l as [|c l]; simpl; [reflexivity|]. now intros ->. Qed.

Lemma dropWhile_head p l :
  match dropWhile p l with [] => True | c :: _ => p c = false end.
Proof.
  induction l as [|c l IH]; simpl; [exact I|].
  destruct (p c) eqn:E; [exact IH | exact E].
Qed.

Lemma dropWhile_snoc p m x :
  p x = false -> dropWhile p (m ++ [x]) = dropWhile p m ++ [x].
Proof.
  intros Hx. induction m as [|c m IH]; simpl.
  - now rewrite Hx.
  - destruct (p c); [exact IH | reflexivity].
Qed.

Lemma trimEnd_head l :
  match l with [] => True | c :: _ => isWhiteSpace c = false end ->
  match trimEnd l with [] => True | c :: _ => isWhiteSpace c = false end.
Proof.
  unfold trimEnd. destruct l as [|x l]; [intros _; exact I|]. intros Hx.
  cbn [List.rev]. rewrite dropWhile_snoc by exact Hx.
  rewrite rev_app_distr. exact Hx.
Qed.

(** Trimming a trimmed text changes nothing. *)
Lemma trimChars_idempotent l : trimChars (trimChars l) = trimChars l.
Proof.
  unfold trimChars at 1. unfold trimStart.
  rewrite dropWhile_fixed.
  - unfold trimChars, trimEnd. rewrite rev_involutive.
    rewrite dropWhile_fixed; [reflexivity | apply dropWhile_head].
  - unfold trimChars. apply trimEnd_head. apply dropWhile_head.
Qed.

Lemma trim_trimmed l : trim (ofChars (trimChars l)) = ofChars (trimChars l).
Proof. now rewrite trim_ofChars, trimChars_idempotent. Qed.

Lemma scan_wellFormed s ps :
  ScannedByCode s ps -> Forall wellFormedPair ps.
Proof.
  induction 1 as [|c s ps _ _ IH|s t1 t2 rest ps P _ IH].
  - constructor.
  - exact IH.
  - constructor; [|exact IH].
    destruct P as (_ & _ & H1 & _ & H2). unfold wellFormedPair. cbn [fst snd].
    rewrite !trim_trimmed, !chars_ofChars. repeat split.
    + intros I. apply In_trimChars in I. apply (H1 ","%char); [now left | exact I].
    + intros I. apply In_trimChars in I. apply (H2 ")"%char); [now left | exact I].
Qed.

(** *** The grid *)

Lemma gridPosition_injective i j : gridPosition i = gridPosition j -> i = j.
Proof.
  unfold gridPosition. intros [= Hx Hy].
  pose proof (Z.div_mod (Z.of_nat i) 5 ltac:(lia)).
  pose proof (Z.div_mod (Z.of_nat j) 5 ltac:(lia)).
  lia.
Qed.

Lemma NoDup_map_injective {A B : Type} (f : A -> B) l :
  (forall a b, f a = f b -> a = b) -> NoDup l -> NoDup (map f l).
Proof.
  intros Hf. induction 1 as [|a l Hn _ IH]; simpl; constructor; [|exact IH].
  intros I. apply in_map_iff in I as (b & E & Hb).
  apply Hf in E. subst b. now apply Hn.
Qed.

Lemma Forall_mapi_from (P : INode -> Prop) l : forall k,
  (forall a i, P (nodeOf a i)) -> Forall P (mapi_from nodeOf k l).
Proof.
  induction l as [|a l IH]; intros k H; simpl; constructor; auto.
Qed.

(** *** Rendered pairs *)

Lemma chars_nonempty a : a <> "" -> chars a <> [].
Proof. destruct a; [congruence | discriminate]. Qed.

Lemma chars_renderPair a b rest :
  chars (renderPair (a, b)) ++ rest
  = "("%char :: chars a ++ ","%char :: chars b ++ ")"%char :: rest.
Proof.
  unfold renderPair. cbn [fst snd]. rewrite !chars_append.
  cbn [chars list_ascii_of_string app]. rewrite <- !app_assoc.
  cbn [app]. f_equal. f_equal. f_equal. rewrite <- app_assoc. reflexivity.
Qed.

Lemma pairAt_rendered a b rest :
  cleanPair (a, b) ->
  pairAt [","%char] [")"%char] (chars (renderPair (a, b)) ++ rest)
         (chars a) (chars b) rest.
Proof.
  intros (Ha & _ & Hca & Hb & _ & Hcb). cbn [fst snd] in *.
  unfold pairAt. rewrite chars_renderPair. repeat split.
  - now apply chars_nonempty.
  - now apply not_in_single.
  - now apply chars_nonempty.
  - now apply not_in_single.
Qed.

Lemma Scanned_pair_eq s t1 t2 rest p ps :
  pairAt [","%char] [")"%char] s t1 t2 rest ->
  ScannedByCode rest ps ->
  (ofChars (trimChars t1), ofChars (trimChars t2)) = p ->
  ScannedByCode s (p :: ps).
Proof. intros P S <-. now apply Scanned_pair with (rest := rest). Qed.

Lemma scan_rendered ps : forall post qs,
  Forall cleanPair ps ->
  ScannedByCode post qs ->
  ScannedByCode (chars (join "," (map renderPair ps)) ++ post) (ps ++ qs).
Proof.
  induction ps as [|[a b] ps IH]; intros post qs Hc Hpost.
  - exact Hpost.
  - inversion Hc as [|p l Hp Hl]; subst.
    assert (Hab : (ofChars (trimChars (chars a)), ofChars (trimChars (chars b)))
                  = (a, b)).
    { destruct Hp as (_ & Ta & _ & _ & Tb & _). cbn [fst snd] in *.
      unfold trim in Ta, Tb. now rewrite Ta, Tb. }
    destruct ps as [|q ps].
    + cbn [map join app].
      apply Scanned_pair_eq with (t1 := chars a) (t2 := chars b) (rest := post);
        [now apply pairAt_rendered | exact Hpost | exact Hab].
    + change (join "," (map renderPair ((a, b) :: q :: ps)))
        with (renderPair (a, b) +++ "," +++ join "," (map renderPair (q :: ps))).
      rewrite !chars_append, <- !app_assoc. cbn [app].
      apply Scanned_pair_eq
        with (t1 := chars a) (t2 := chars b)
             (rest := chars "," ++ chars (join "," (map renderPair (q :: ps)))
                             ++ post);
        [now apply pairAt_rendered | | exact Hab].
      cbn [chars list_ascii_of_string app]. apply Scanned_skip.
      * intros t1 t2 rest. apply no_pair_at_other. discriminate.
      * now apply IH.
Qed.

(** *** The properties *)

(** X4.  An input that lacks an open-parenthesis, a comma or a
    close-parenthesis gives no node and no edge. *)
Theorem parse_without_delimiter (input : string) :
  ~ In "("%char (chars input) \/ ~ In ","%char (chars input)
  \/ ~ In ")"%char (chars input) ->
  parseGraphInput input = Some {| nodes := []; edges := [] |}.
Proof.
  intros H. now rewrite (parse_of_scan input [] (scan_without_delimiter _ H)).
Qed.

Lemma parse_without_delimiter_witness :
  parseGraphInput "garbage, no parens" = Some {| nodes := []; edges := [] |}.
Proof.
  apply parse_without_delimiter. left. cbn. intuition discriminate.
Defined.

(** X5.  Text before the first open-parenthesis is ignored: with it or
    without it the result is the same. *)
Theorem parse_after_junk (junk input : string) :
  ~ In "("%char (chars junk) ->
  parseGraphInput (junk +++ input) = parseGraphInput input.
Proof.
  intros H. destruct (matchedPairs_total input) as (ps & E & S).
  rewrite (parseGraphInput_of_pairs _ _ E).
  apply parse_of_scan. rewrite chars_append. now apply scan_after_junk.
Qed.

Lemma parse_after_junk_witness :
  parseGraphInput "edges: [(A,B)]" = parseGraphInput "(A,B)]".
Proof.
  apply (parse_after_junk "edges: [" "(A,B)]"). cbn. intuition discriminate.
Defined.

(** X6.  Every edge takes at least five characters of the input, and
    there are at most two nodes for each edge. *)
Theorem parse_sizes (input : string) :
  exists g,
    parseGraphInput input = Some g
    /\ 5 * List.length (edges g) <= String.length input
    /\ List.length (nodes g) <= 2 * List.length (edges g).
Proof.
  destruct (matchedPairs_total input) as (ps & E & S).
  eexists. split; [exact (parseGraphInput_of_pairs _ _ E)|].
  cbn [nodes edges]. rewrite length_map. unfold mapi.
  rewrite length_mapi_from, nodeSetOf_tokens. split.
  - rewrite <- length_chars. now apply scan_length.
  - pose proof (length_addAll (tokens ps) []) as H.
    rewrite length_tokens in H. simpl in H. lia.
Qed.

(** X7.  No two nodes of a result are at the same place, and every node
    is on the grid: [x] is one of 100, 300, 500, 700, 900 and [y] is 100
    plus a multiple of 150. *)
Theorem parse_positions (input : string) :
  exists g,
    parseGraphInput input = Some g
    /\ NoDup (map position (nodes g))
    /\ Forall (fun n => (100 <= x n <= 900 /\ (x n - 100) mod 200 = 0
                         /\ 100 <= y n /\ (y n - 100) mod 150 = 0)%Z)
              (nodes g).
Proof.
  destruct (matchedPairs_total input) as (ps & E & _).
  eexists. split; [exact (parseGraphInput_of_pairs _ _ E)|].
  cbn [nodes]. unfold mapi. split.
  - rewrite position_mapi_from.
    apply NoDup_map_injective; [|apply seq_NoDup].
    intros i j. apply gridPosition_injective.
  - apply Forall_mapi_from. intros a i. cbn [nodeOf x y].
    pose proof (Z.mod_pos_bound (Z.of_nat i) 5 ltac:(lia)).
    assert (0 <= Z.of_nat i / 5)%Z by (apply Z.div_pos; lia).
    repeat split; try lia.
    + replace ((Z.of_nat i mod 5) * 200 + 100 - 100)%Z
        with ((Z.of_nat i mod 5) * 200)%Z by lia.
      apply Z.mod_mul. lia.
    + replace (Z.of_nat i / 5 * 150 + 100 - 100)%Z
        with (Z.of_nat i / 5 * 150)%Z by lia.
      apply Z.mod_mul. lia.
Qed.

Lemma node_of_scan s ps n :
  ScannedByCode s ps ->
  In n (mapi nodeOf (nodeSetOf ps)) ->
  title n = id n /\ trim (id n) = id n.
Proof.
  intros S Hn. unfold mapi in Hn. split.
  - revert Hn. generalize 0%nat. induction (nodeSetOf ps) as [|a l IH];
      intros k Hn; [destruct Hn|].
    destruct Hn as [E|I]; [now subst | now apply (IH (Datatypes.S k))].
  - assert (Ht : In (id n) (tokens ps)).
    { assert (I : In (id n) (nodeSetOf ps)).
      { rewrite <- (map_id_mapi_from (nodeSetOf ps) 0). now apply in_map. }
      rewrite nodeSetOf_tokens in I. apply In_addAll in I.
      destruct I as [[]|I]. exact I. }
    unfold tokens in Ht. apply in_flat_map in Ht as ([a b] & Hp & Hab).
    pose proof (scan_wellFormed _ _ S) as W.
    rewrite Forall_forall in W. destruct (W _ Hp) as (Ta & Tb & _).
    cbn in Hab, Ta, Tb. destruct Hab as [<-|[<-|[]]]; assumption.
Qed.

(** The nodes of a result have their id as title, and it is trimmed. *)
Lemma node_of_parse input g n :
  parseGraphInput input = Some g -> In n (nodes g) ->
  title n = id n /\ trim (id n) = id n.
Proof.
  intros E Hn. destruct (matchedPairs_total input) as (ps & Ep & S).
  rewrite (parseGraphInput_of_pairs _ _ Ep) in E. injection E as <-.
  exact (node_of_scan _ _ _ S Hn).
Qed.

(** X8.  The names of a result are trimmed: no source, target or node id
    begins or ends with white space; no source holds a comma and no
    target a close-parenthesis. *)
Theorem parse_names_trimmed (input : string) :
  exists g,
    parseGraphInput input = Some g
    /\ Forall (fun e => wellFormedPair (endpoints e)) (edges g)
    /\ Forall (fun n => trim (id n) = id n) (nodes g).
Proof.
  destruct (matchedPairs_total input) as (ps & E & S).
  eexists. split; [exact (parseGraphInput_of_pairs _ _ E)|].
  cbn [nodes edges]. pose proof (scan_wellFormed _ _ S) as W. split.
  - apply Forall_map. eapply Forall_impl; [|exact W].
    intros [a b] H. exact H.
  - apply Forall_forall. intros n Hn. exact (proj2 (node_of_scan _ _ _ S Hn)).
Qed.

(** X9.  Pairs that are typed as [[(a,b),(c,d)]] read back as they are:
    when every name is non-empty and trimmed, no first name holds a comma
    and no second name a close-parenthesis, the edges of the result are
    the pairs, in order, and the nodes their names in first-seen order. *)
Theorem parse_rendered (ps : list (string * string)) :
  Forall cleanPair ps ->
  exists g,
    parseGraphInput (renderPairs ps) = Some g
    /\ map endpoints (edges g) = ps
    /\ map id (nodes g) = firstSeen (tokens ps).
Proof.
  intros Hc.
  assert (S : ScannedByCode (chars (renderPairs ps)) ps).
  { unfold renderPairs. rewrite !chars_append.
    cbn [chars list_ascii_of_string app]. apply Scanned_skip.
    - intros t1 t2 rest. apply no_pair_at_other. discriminate.
    - rewrite <- (app_nil_r ps) at 2. apply scan_rendered; [exact Hc|].
      apply Scanned_skip; [|constructor].
      intros t1 t2 rest. apply no_pair_at_other. discriminate. }
  eexists. split; [exact (parse_of_scan _ _ S)|]. cbn [nodes edges]. split.
  - apply endpoints_edgeOf.
  - unfold mapi. now rewrite map_id_mapi_from, nodeSetOf_firstSeen.
Qed.

Lemma parse_rendered_witness :
  exists g,
    parseGraphInput "[(alice.eth,bob.eth),(bob.eth,carol.eth)]" = Some g
    /\ map endpoints (edges g)
       = [("alice.eth", "bob.eth"); ("bob.eth", "carol.eth")]
    /\ map id (nodes g) = ["alice.eth"; "bob.eth"; "carol.eth"].
Proof.
  apply (parse_rendered [("alice.eth", "bob.eth"); ("bob.eth", "carol.eth")]).
  repeat constructor; cbn; try discriminate; intuition discriminate.
Defined.

End GraphMore.


(* ================================================================= *)
(** * Further properties of the lookup orchestrator *)

Module LookupMore.
Import JsString Js Lookup LookupSpec Sample MoreSpec LookupFacts.

#[local] Hint Unfold resolveAddress logNamehash requireAddress fetchBalance
  fetchCode fetchTransactionCount reverseLookup obtainResolver
  fetchContentHash fetchName fetchUrl fetchAvatar fetchDescription
  fetchProfileFields fetchResolverAddress fetchCoinAddress resolverRecords
  isTxList fetchTransactions lookupPrelude lookupBody lookupGuarded
  doLookup : steps.

(** *** More on sequencing *)

Lemma keeps_bind_lift_ok R {A B : Type} (a : A) (f : A -> M B) :
  keeps R (f a) -> keeps R (bind (lift (Ok a)) f).
Proof. intros H st. exact (H st). Qed.

(** A step whose value is known to satisfy [Q] is followed by a step that
    may rely on [Q]. *)
Lemma keeps_bind_val R (R_trans : forall a b c, R a b -> R b c -> R a c)
      {A B : Type} (Q : A -> Prop) (m : M A) (f : A -> M B) :
  (forall st a, fst (m st) = Normal a -> Q a) ->
  keeps R m -> (forall a, Q a -> keeps R (f a)) -> keeps R (bind m f).
Proof.
  intros Hv Hm Hf st. specialize (Hm st). specialize (Hv st).
  unfold after, bind in *.
  destruct (m st) as [[a| |e] st1]; simpl in *; auto.
  apply R_trans with st1; [exact Hm|]. apply Hf. now apply Hv.
Qed.

Lemma run_val {A : Type} (m : M A) st :
  yields false m -> exists a, m st = (Normal a, after m st).
Proof.
  intros H. specialize (H st). unfold after.
  destruct (m st) as [[a| |e] st1]; simpl in *;
    [now exists a | contradiction | discriminate].
Qed.

(** *** The log *)

Lemma logGrows_refl st : logGrows st st.
Proof. now exists []. Qed.

Lemma logGrows_trans a b c : logGrows a b -> logGrows b c -> logGrows a c.
Proof.
  intros (l1 & E1) (l2 & E2). exists (l2 ++ l1).
  now rewrite E2, E1, app_assoc.
Qed.

Ltac grows_tac :=
  keeps_tac logGrows_refl logGrows_trans
            ltac:(intros ?; first [ now exists [] | eexists [_]; reflexivity ])
            ltac:(intros ?; now exists []).

Lemma lookupGuarded_grows w name :
  keeps logGrows (function (lookupGuarded w name)).
Proof. grows_tac. Qed.

(** X10.  A lookup only adds to the log: the entries that were there
    stay, in place, under the new ones.  For a non-empty input the first
    entry added is the informational [Resolving ENS name: {input}]; for
    an empty input nothing is added. *)
Theorem lookup_log_grows (w : World) (name : string) (st : State) :
  exists added,
    logs (after (doLookup w name) st) = added ++ logs st
    /\ if truthy name
       then exists later e,
              added = later ++ [e]
              /\ levelText e = (info, "Resolving ENS name: " +++ name)
       else added = [].
Proof.
  unfold after at 1. rewrite doLookup_unfold.
  destruct (truthy name).
  - destruct (lookupGuarded_grows w name (after (lookupPrelude w name) st))
      as (later & E).
    unfold after at 1 in E. rewrite E.
    eexists (later ++ [_]). split.
    + rewrite <- app_assoc. reflexivity.
    + eexists later, _. split; reflexivity.
  - exists []. split; reflexivity.
Qed.

(** *** Address and balance *)

Lemma keepsPaired_refl st : keepsPaired st st.
Proof. intros H. exact H. Qed.

Lemma keepsPaired_trans a b c :
  keepsPaired a b -> keepsPaired b c -> keepsPaired a c.
Proof. unfold keepsPaired. auto. Qed.

Ltac paired_tac :=
  keeps_tac keepsPaired_refl keepsPaired_trans
            ltac:(intros ? ?; first [ assumption | exact I ])
            ltac:(intros ? ?; assumption).

Lemma lookupGuarded_paired w name :
  keeps keepsPaired (function (lookupGuarded w name)).
Proof. paired_tac. Qed.

(** X11.  After a lookup on a non-empty input the profile holds an
    address exactly when it holds a balance: the two are set together or
    not at all. *)
Theorem lookup_address_with_balance (w : World) (name : string) (st : State) :
  name <> "" ->
  paired (profile (after (doLookup w name) st)).
Proof.
  intros Hname. unfold after at 1.
  rewrite doLookup_unfold, (truthy_nonempty _ Hname).
  apply (lookupGuarded_paired w name (after (lookupPrelude w name) st)).
  exact I.
Qed.

Lemma lookup_address_with_balance_witness :
  paired (profile (after (doLookup sampleWorld "vitalik.eth") used))
  /\ paired (profile (after (doLookup noProviderWorld "vitalik.eth") used)).
Proof.
  split; apply lookup_address_with_balance; discriminate.
Defined.

Lemma sameAddressBalance_refl st : sameAddressBalance st st.
Proof. split; reflexivity. Qed.

Lemma sameAddressBalance_trans a b c :
  sameAddressBalance a b -> sameAddressBalance b c -> sameAddressBalance a c.
Proof. intros (E1 & E2) (E3 & E4). split; congruence. Qed.

Ltac ab_tac :=
  keeps_tac sameAddressBalance_refl sameAddressBalance_trans
            ltac:(intros ?; split; reflexivity)
            ltac:(intros ?; split; reflexivity).

Lemma logNamehash_same w name : keeps sameProfile (logNamehash w name).
Proof. same_tac. Qed.

(** The balance step, run from a state without profile. *)
Lemma fetchBalance_profile w provider address st :
  profile st = None ->
  let p := Profile.orEmpty (profile (after (fetchBalance w provider address) st)) in
  match getBalance provider address with
  | Ok wei =>
      match formatEther w (VBigInt wei) with
      | Ok ether =>
          Profile.address p = Some address
          /\ Profile.balance p = Some (ether +++ " ETH")
      | Err _ => Profile.address p = None /\ Profile.balance p = None
      end
  | Err _ => Profile.address p = None /\ Profile.balance p = None
  end.
Proof.
  intros Hp. unfold after, fetchBalance, tryCatch, bind, await, lift.
  destruct (getBalance provider address) as [wei|e]; cbn.
  - destruct (formatEther w (VBigInt wei)) as [ether|e]; cbn.
    + split; reflexivity.
    + rewrite Hp. split; reflexivity.
  - rewrite Hp. split; reflexivity.
Qed.

(** X12.  In a lookup that resolves an address, the profile at the end
    holds that address and the balance text [{ether} ETH] when the balance
    is fetched and formatted, and neither of the two when the fetch or the
    formatting throws, whatever the later steps do. *)
Theorem lookup_balance_outcome (w : World) (provider : Provider)
        (name address : string) (st : State) :
  name <> "" ->
  resolvesAddress w provider name address ->
  let p := Profile.orEmpty (profile (after (doLookup w name) st)) in
  match getBalance provider address with
  | Ok wei =>
      match formatEther w (VBigInt wei) with
      | Ok ether =>
          Profile.address p = Some address
          /\ Profile.balance p = Some (ether +++ " ETH")
      | Err _ => Profile.address p = None /\ Profile.balance p = None
      end
  | Err _ => Profile.address p = None /\ Profile.balance p = None
  end.
Proof.
  intros Hname Hres.
  unfold after at 1.
  rewrite doLookup_unfold, (truthy_nonempty _ Hname), lookupGuarded_unfold.
  set (st1 := after (lookupPrelude w name) st).
  unfold lookupBody. fold rpcUrl.
  destruct (resolveAddress_run w provider name address st1 Hres)
    as (st2 & E2 & P2).
  destruct Hres as (Hp & Hne & _). rewrite Hp.
  change (bind (lift (Ok provider)) ?f st1) with (f provider st1).
  cbv beta.
  rewrite (bind_normal _ _ _ _ _ E2).
  rewrite bind_after by apply logNamehash_ends.
  rewrite (bind_normal _ _ _ _ _ (requireAddress_run w name address _ Hne)).
  rewrite bind_after by apply fetchBalance_ends.
  assert (Hnone : profile (after (logNamehash w name) st2) = None).
  { rewrite logNamehash_same. rewrite P2. reflexivity. }
  pose proof (fetchBalance_profile w provider address _ Hnone) as HB.
  cbv zeta in HB.
  set (stB := after (fetchBalance w provider address)
                    (after (logNamehash w name) st2)) in *.
  match goal with
  | |- context [bind (fetchCode w provider address) ?k stB] =>
      set (rest := bind (fetchCode w provider address) k)
  end.
  assert (K : keeps sameAddressBalance rest) by (unfold rest; ab_tac).
  specialize (K stB). unfold after in K.
  destruct (rest stB) as [[[]| |e] stF]; cbn [snd] in K |- *;
    destruct K as (Ka & Kb); cbv zeta;
    change (profile (after (setLoading false) ?s)) with (profile s);
    try change (profile (after (addLog w error ?t) ?s)) with (profile s);
    rewrite Ka, Kb; exact HB.
Qed.

Lemma lookup_balance_outcome_witness :
  let p := Profile.orEmpty
             (profile (after (doLookup sampleWorld "vitalik.eth") used)) in
  Profile.address p = Some vitalik /\ Profile.balance p = Some "1.5 ETH".
Proof.
  assert (H1 : "vitalik.eth" <> "") by discriminate.
  assert (H2 : resolvesAddress sampleWorld sampleProvider "vitalik.eth" vitalik).
  { repeat split. discriminate. }
  exact (lookup_balance_outcome sampleWorld sampleProvider "vitalik.eth"
           vitalik used H1 H2).
Defined.

(** *** Lookups without a resolver *)

Lemma obtainResolver_none w provider name :
  (getResolver provider name = Ok None
   \/ exists e, getResolver provider name = Err e) ->
  forall st a, fst (obtainResolver w provider name st) = Normal a -> a = None.
Proof.
  intros H st a. unfold obtainResolver, tryCatch, bind, await.
  destruct H as [->|(e & ->)]; cbn; now intros [= <-].
Qed.

Lemma notResolver_refl st : sendsOnly notResolverRequest st st.
Proof. apply sendsOnly_refl. Qed.

Ltac plain_tac :=
  keeps_tac (sendsOnly_refl notResolverRequest)
            (sendsOnly_trans notResolverRequest)
            ltac:(intros ?; exists []; split; [reflexivity | constructor])
            ltac:(intros ?; eexists [_]; split;
                  [reflexivity | repeat constructor; intros []]).

Ltac unset_more_tac :=
  keeps_tac keepsTextUnset_refl keepsTextUnset_trans
            ltac:(intros ? ?; first [ assumption | repeat split ])
            ltac:(intros ? ?; assumption).

Lemma lookupBody_plain w provider name :
  JsonRpcProvider w rpcUrl = Ok provider ->
  (getResolver provider name = Ok None
   \/ exists e, getResolver provider name = Err e) ->
  keeps (sendsOnly notResolverRequest) (lookupBody w name).
Proof.
  intros Hp H.
  unfold lookupBody; fold rpcUrl. rewrite Hp.
  apply keeps_bind_lift_ok.
  do 7 (apply (keeps_bind _ (sendsOnly_trans notResolverRequest));
        [solve [plain_tac] | intros ?]).
  apply (keeps_bind_val _ (sendsOnly_trans notResolverRequest)
                        (fun r => r = None)).
  - now apply obtainResolver_none.
  - plain_tac.
  - intros ? ->. plain_tac.
Qed.

Lemma lookupBody_unset w provider name :
  JsonRpcProvider w rpcUrl = Ok provider ->
  (getResolver provider name = Ok None
   \/ exists e, getResolver provider name = Err e) ->
  keeps keepsTextUnset (lookupBody w name).
Proof.
  intros Hp H.
  unfold lookupBody; fold rpcUrl. rewrite Hp.
  apply keeps_bind_lift_ok.
  do 7 (apply (keeps_bind _ keepsTextUnset_trans);
        [solve [unset_more_tac] | intros ?]).
  apply (keeps_bind_val _ keepsTextUnset_trans (fun r => r = None)).
  - now apply obtainResolver_none.
  - unset_more_tac.
  - intros ? ->. unset_more_tac.
Qed.

(** X13.  When no resolver is obtained for the input (there is none, or
    asking for it throws), the lookup sends no request to a resolver: no
    content hash, text record or address record is asked for; and for a
    non-empty input the four text fields of the profile are unset at the
    end. *)
Theorem lookup_without_resolver (w : World) (provider : Provider)
        (name : string) (st : State) :
  JsonRpcProvider w rpcUrl = Ok provider ->
  (getResolver provider name = Ok None
   \/ exists e, getResolver provider name = Err e) ->
  (exists sent,
      requests (after (doLookup w name) st) = sent ++ requests st
      /\ Forall notResolverRequest sent)
  /\ (name <> "" -> textUnset (profile (after (doLookup w name) st))).
Proof.
  intros Hp H. split.
  - assert (K : keeps (sendsOnly notResolverRequest) (doLookup w name)).
    { unfold doLookup, lookupGuarded.
      apply keeps_function. destruct (negb (truthy name)).
      - apply keeps_return, sendsOnly_refl.
      - apply (keeps_bind _ (sendsOnly_trans notResolverRequest));
          [solve [plain_tac] | intros _].
        apply (keeps_tryFinally _ (sendsOnly_trans notResolverRequest));
          [|solve [plain_tac]].
        apply (keeps_tryCatch _ (sendsOnly_trans notResolverRequest));
          [|solve [plain_tac]].
        now apply (lookupBody_plain w provider name). }
    exact (K st).
  - intros Hname. unfold after at 1.
    rewrite doLookup_unfold, (truthy_nonempty _ Hname).
    assert (K : keeps keepsTextUnset (function (lookupGuarded w name))).
    { unfold lookupGuarded. apply keeps_function.
      apply (keeps_tryFinally _ keepsTextUnset_trans);
        [|solve [unset_more_tac]].
      apply (keeps_tryCatch _ keepsTextUnset_trans);
        [|solve [unset_more_tac]].
      now apply (lookupBody_unset w provider name). }
    apply (K (after (lookupPrelude w name) st)). apply textUnset_prelude.
Qed.

Lemma lookup_without_resolver_witness :
  (exists sent,
      requests (after (doLookup sampleWorld vitalik) used) = sent ++ requests used
      /\ Forall notResolverRequest sent)
  /\ textUnset (profile (after (doLookup sampleWorld vitalik) used)).
Proof.
  assert (H1 : JsonRpcProvider sampleWorld rpcUrl = Ok sampleProvider)
    by reflexivity.
  assert (H2 : getResolver sampleProvider vitalik = Ok None
               \/ exists e, getResolver sampleProvider vitalik = Err e)
    by (left; reflexivity).
  destruct (lookup_without_resolver sampleWorld sampleProvider vitalik used
              H1 H2) as (Hs & Hu).
  split; [exact Hs|]. apply Hu. discriminate.
Defined.

(** *** The request for the transaction history *)

Lemma fetchTransactions_requests w address st :
  address <> "" ->
  requests (after (fetchTransactions w address) st) =
    match fetch w (etherscanUrl w address) with
    | Ok _ => ReqJson :: ReqFetch (etherscanUrl w address) :: requests st
    | Err _ => ReqFetch (etherscanUrl w address) :: requests st
    end.
Proof.
  intros Hne.
  unfold after, fetchTransactions, isTxList, tryCatch, bind, await, lift, throw.
  rewrite (truthy_nonempty _ Hne).
  destruct (fetch w (etherscanUrl w address)) as [response|e];
    [|reflexivity].
  cbn. destruct (json response) as [data|e]; [|reflexivity].
  cbn. destruct (getProp data "status") as [status|e]; [|reflexivity].
  cbn. destruct (strictEqString status "1"); cbn.
  - destruct (getProp data "result") as [result|e]; [|reflexivity].
    cbn. destruct (isTruthy result); cbn.
    + destruct (isArray result); cbn.
      * destruct result; cbn; try reflexivity.
        destruct (mapResult (toTransaction w) elems); reflexivity.
      * destruct (getProp data "message") as [m|]; [|reflexivity].
        cbn. destruct (ToString w _); reflexivity.
    + destruct (getProp data "message") as [m|]; [|reflexivity].
      cbn. destruct (ToString w _); reflexivity.
  - destruct (getProp data "message") as [m|]; [|reflexivity].
    cbn. destruct (ToString w _); reflexivity.
Qed.

(** X14.  In a lookup that resolves an address, the request for the
    transaction history of that address is always sent, as the last
    request of the lookup (followed only by the reading of its body when
    the request succeeds), whatever the diagnostic and resolver steps
    did. *)
Theorem lookup_requests_history (w : World) (provider : Provider)
        (name address : string) (st : State) :
  name <> "" ->
  resolvesAddress w provider name address ->
  exists earlier,
    requests (after (doLookup w name) st) =
      match fetch w (etherscanUrl w address) with
      | Ok _ => ReqJson :: ReqFetch (etherscanUrl w address) :: earlier
      | Err _ => ReqFetch (etherscanUrl w address) :: earlier
      end.
Proof.
  intros Hname Hres.
  unfold after at 1.
  rewrite doLookup_unfold, (truthy_nonempty _ Hname), lookupGuarded_unfold.
  set (st1 := after (lookupPrelude w name) st).
  unfold lookupBody. fold rpcUrl.
  destruct (resolveAddress_run w provider name address st1 Hres)
    as (st2 & E2 & P2).
  destruct Hres as (Hp & Hne & _). rewrite Hp.
  change (bind (lift (Ok provider)) ?f st1) with (f provider st1).
  cbv beta.
  rewrite (bind_normal _ _ _ _ _ E2).
  rewrite bind_after by apply logNamehash_ends.
  rewrite (bind_normal _ _ _ _ _ (requireAddress_run w name address _ Hne)).
  rewrite bind_after by apply fetchBalance_ends.
  rewrite bind_after by apply fetchCode_ends.
  rewrite bind_after by apply fetchTransactionCount_ends.
  rewrite bind_after by apply reverseLookup_ends.
  match goal with
  | |- context [bind (obtainResolver w provider name) _ ?s] =>
      destruct (run_val (obtainResolver w provider name) s
                        (obtainResolver_ends w provider name)) as (r & Er)
  end.
  rewrite (bind_normal _ _ _ _ _ Er).
  rewrite bind_after by apply resolverRecords_ends.
  rewrite (run_unit (fetchTransactions w address))
    by apply fetchTransactions_ends.
  cbn [snd].
  change (requests (after (setLoading false) ?s)) with (requests s).
  rewrite (fetchTransactions_requests w address _ Hne).
  eexists. reflexivity.
Qed.

Lemma lookup_requests_history_witness :
  exists earlier,
    requests (after (doLookup sampleWorld "vitalik.eth") used) =
      ReqJson :: ReqFetch (etherscanUrl sampleWorld vitalik) :: earlier.
Proof.
  assert (H1 : "vitalik.eth" <> "") by discriminate.
  assert (H2 : resolvesAddress sampleWorld sampleProvider "vitalik.eth" vitalik).
  { repeat split. discriminate. }
  exact (lookup_requests_history sampleWorld sampleProvider "vitalik.eth"
           vitalik used H1 H2).
Defined.

(** *** Two runs of one lookup *)

Section TwoRuns.
Variables (log1 log2 : list LogEntry) (reqs1 reqs2 : list Request).

Local Notation "'same'" := (sameRun log1 log2 reqs1 reqs2).
Local Notation "'agree'" := (agrees log1 log2 reqs1 reqs2).

Lemma agrees_ret {A : Type} (a : A) : agree (ret a).
Proof. intros st1 st2 H. split; [reflexivity | exact H]. Qed.

Lemma agrees_return {A : Type} : agree (@return_ A).
Proof. intros st1 st2 H. split; [reflexivity | exact H]. Qed.

Lemma agrees_throw {A : Type} e : agree (@throw A e).
Proof. intros st1 st2 H. split; [reflexivity | exact H]. Qed.

Lemma agrees_lift {A : Type} (r : result A) : agree (lift r).
Proof.
  intros st1 st2 H. unfold after, lift.
  destruct r; (split; [reflexivity | exact H]).
Qed.

Lemma agrees_await {A : Type} q (r : result A) : agree (await q r).
Proof.
  intros st1 st2 (Hp & Ht & Hl & Hs & Hlog & (sent & E1 & E2)).
  assert (S : same (mkState (logs st1) (profile st1) (transactions st1)
                            (loading st1) (showModal st1) (q :: requests st1))
                   (mkState (logs st2) (profile st2) (transactions st2)
                            (loading st2) (showModal st2) (q :: requests st2))).
  { repeat split; try assumption. exists (q :: sent). cbn.
    now rewrite E1, E2. }
  unfold after, await. destruct r; (split; [reflexivity | exact S]).
Qed.

Lemma agrees_bind {A B : Type} (m : M A) (f : A -> M B) :
  agree m -> (forall a, agree (f a)) -> agree (bind m f).
Proof.
  intros Hm Hf st1 st2 H. destruct (Hm st1 st2 H) as (Ec & Hs).
  unfold after, bind in *.
  destruct (m st1) as [c1 s1], (m st2) as [c2 s2]. cbn [fst snd] in *.
  subst c2. destruct c1 as [a| |e]; [apply Hf; exact Hs | |];
    (split; [reflexivity | exact Hs]).
Qed.

Lemma agrees_tryCatch {A : Type} (m : M A) (h : string -> M A) :
  agree m -> (forall e, agree (h e)) -> agree (tryCatch m h).
Proof.
  intros Hm Hh st1 st2 H. destruct (Hm st1 st2 H) as (Ec & Hs).
  unfold after, tryCatch in *.
  destruct (m st1) as [c1 s1], (m st2) as [c2 s2]. cbn [fst snd] in *.
  subst c2. destruct c1 as [a| |e]; [| |apply Hh; exact Hs];
    (split; [reflexivity | exact Hs]).
Qed.

Lemma agrees_tryFinally {A : Type} (m : M A) (f : M unit) :
  agree m -> agree f -> agree (tryFinally m f).
Proof.
  intros Hm Hf st1 st2 H. destruct (Hm st1 st2 H) as (Ec & Hs).
  unfold after, tryFinally in *.
  destruct (m st1) as [c1 s1], (m st2) as [c2 s2]. cbn [fst snd] in *.
  subst c2. destruct (Hf s1 s2 Hs) as (Ef & Hs'). unfold after in *.
  destruct (f s1) as [d1 u1], (f s2) as [d2 u2]. cbn [fst snd] in *.
  subst d2. destruct d1 as [[]| |e]; (split; [reflexivity | exact Hs']).
Qed.

Lemma agrees_function (m : M unit) : agree m -> agree (function m).
Proof.
  intros Hm st1 st2 H. destruct (Hm st1 st2 H) as (Ec & Hs).
  unfold after, function in *.
  destruct (m st1) as [c1 s1], (m st2) as [c2 s2]. cbn [fst snd] in *.
  subst c2. destruct c1 as [[]| |e]; (split; [reflexivity | exact Hs]).
Qed.

Lemma agrees_forOf {A : Type} (l : list A) (body : A -> M unit) :
  (forall a, agree (body a)) -> agree (forOf l body).
Proof.
  intros Hb. induction l as [|a l IH]; simpl.
  - apply agrees_ret.
  - apply agrees_bind; [apply Hb | intros _; exact IH].
Qed.

Lemma agrees_addLog w lv txt : agree (addLog w lv txt).
Proof.
  intros st1 st2 (Hp & Ht & Hl & Hs & (a1 & a2 & E1 & E2 & Em) & Hr).
  split; [reflexivity|]. repeat split; try assumption.
  eexists (_ :: a1), (_ :: a2). cbn. rewrite E1, E2.
  split; [reflexivity|]. split; [reflexivity|]. now rewrite Em.
Qed.

Lemma agrees_setLoading b : agree (setLoading b).
Proof.
  intros st1 st2 (Hp & Ht & Hl & Hs & Hlog & Hr).
  split; [reflexivity|]. repeat split; assumption.
Qed.

Lemma agrees_setShowModal b : agree (setShowModal b).
Proof.
  intros st1 st2 (Hp & Ht & Hl & Hs & Hlog & Hr).
  split; [reflexivity|]. repeat split; assumption.
Qed.

Lemma agrees_setTransactions txs : agree (setTransactions txs).
Proof.
  intros st1 st2 (Hp & Ht & Hl & Hs & Hlog & Hr).
  split; [reflexivity|]. repeat split; assumption.
Qed.

Lemma agrees_setProfile f : agree (setProfile f).
Proof.
  intros st1 st2 (Hp & Ht & Hl & Hs & Hlog & Hr).
  split; [reflexivity|]. repeat split; try assumption.
  cbn. now rewrite Hp.
Qed.

(** Takes a goal [agrees m] apart along the structure of [m]. *)
Ltac agrees_tac :=
  autounfold with steps;
  repeat (intros;
    lazymatch goal with
    | |- agrees _ _ _ _ (bind _ _) => apply agrees_bind
    | |- agrees _ _ _ _ (tryCatch _ _) => apply agrees_tryCatch
    | |- agrees _ _ _ _ (tryFinally _ _) => apply agrees_tryFinally
    | |- agrees _ _ _ _ (function _) => apply agrees_function
    | |- agrees _ _ _ _ (forOf _ _) => apply agrees_forOf
    | |- agrees _ _ _ _ (ret _) => apply agrees_ret
    | |- agrees _ _ _ _ return_ => apply agrees_return
    | |- agrees _ _ _ _ (throw _) => apply agrees_throw
    | |- agrees _ _ _ _ (lift _) => apply agrees_lift
    | |- agrees _ _ _ _ (await _ _) => apply agrees_await
    | |- agrees _ _ _ _ (addLog _ _ _) => apply agrees_addLog
    | |- agrees _ _ _ _ (setLoading _) => apply agrees_setLoading
    | |- agrees _ _ _ _ (setShowModal _) => apply agrees_setShowModal
    | |- agrees _ _ _ _ (setProfile _) => apply agrees_setProfile
    | |- agrees _ _ _ _ (setTransactions _) => apply agrees_setTransactions
    | |- agrees _ _ _ _ (if ?b then _ else _) => destruct b
    | |- agrees _ _ _ _ (match ?x with _ => _ end) => destruct x
    end).

Lemma lookupGuarded_agrees w name : agree (function (lookupGuarded w name)).
Proof. agrees_tac. Qed.

End TwoRuns.

(** X15.  A lookup on a non-empty input forgets the past: run from any
    two states it logs the same entries (level and text), sends the same
    requests, and leaves the same profile, transactions, in-progress flag
    and modal flag; only the older log entries and requests differ. *)
Theorem lookup_forgets_past (w : World) (name : string) (st1 st2 : State) :
  name <> "" ->
  sameRun (logs st1) (logs st2) (requests st1) (requests st2)
          (after (doLookup w name) st1) (after (doLookup w name) st2).
Proof.
  intros Hname. unfold after.
  rewrite !doLookup_unfold, (truthy_nonempty _ Hname).
  apply (lookupGuarded_agrees (logs st1) (logs st2) (requests st1)
                              (requests st2) w name).
  repeat split.
  - eexists [_], [_]. repeat split.
  - exists []. split; reflexivity.
Qed.

Lemma lookup_forgets_past_witness :
  profile (after (doLookup sampleWorld "vitalik.eth") initial)
  = profile (after (doLookup sampleWorld "vitalik.eth") used)
  /\ transactions (after (doLookup sampleWorld "vitalik.eth") initial)
     = transactions (after (doLookup sampleWorld "vitalik.eth") used).
Proof.
  assert (H1 : "vitalik.eth" <> "") by discriminate.
  destruct (lookup_forgets_past sampleWorld "vitalik.eth" initial used H1)
    as (Hp & Ht & _).
  split; [exact Hp | exact Ht].
Defined.

End LookupMore.


(* ================================================================= *)
(** * Properties of the handlers *)

Module AppFacts.
Import JsString Js Graph GraphSpec Lookup LookupSpec Sample App MoreSpec.
Import GraphFacts GraphMore LookupFacts.

Lemma dropWhile_all p l : forallb p l = true -> dropWhile p l = [].
Proof.
  induction l as [|c l IH]; simpl; [reflexivity|].
  destruct (p c); [exact IH | discriminate].
Qed.

Lemma trim_blank q : forallb isWhiteSpace (chars q) = true -> trim q = "".
Proof.
  intros H. unfold trim, trimChars, trimStart. now rewrite dropWhile_all.
Qed.

Lemma doLookup_empty w st : doLookup w "" st = (Normal tt, st).
Proof. reflexivity. Qed.

Lemma withUi_same f a : f (ui a) = ui a -> withUi f a = a.
Proof. intros H. unfold withUi. rewrite H. now destruct a. Qed.

(** X16.  Submitting in graph mode stores the parsed nodes and edges and
    adds one informational log entry that gives their numbers, at most
    two nodes for each edge; it sends no request and leaves profile,
    transactions and flags as they are. *)
Theorem submit_graph (w : World) (a : AppState) :
  mode a = graph_ ->
  exists g e,
    parseGraphInput (query a) = Some g
    /\ graphNodes (onSubmit w a) = nodes g
    /\ graphEdges (onSubmit w a) = edges g
    /\ logs (ui (onSubmit w a)) = e :: logs (ui a)
    /\ levelText e =
         (info, "Created graph with "
                  +++ ofNat (List.length (graphNodes (onSubmit w a)))
                  +++ " nodes and "
                  +++ ofNat (List.length (graphEdges (onSubmit w a)))
                  +++ " edges")
    /\ List.length (graphNodes (onSubmit w a))
       <= 2 * List.length (graphEdges (onSubmit w a))
    /\ requests (ui (onSubmit w a)) = requests (ui a)
    /\ profile (ui (onSubmit w a)) = profile (ui a)
    /\ transactions (ui (onSubmit w a)) = transactions (ui a)
    /\ loading (ui (onSubmit w a)) = loading (ui a)
    /\ showModal (ui (onSubmit w a)) = showModal (ui a).
Proof.
  intros Hm. unfold onSubmit, handleGraphSubmit. rewrite Hm.
  destruct (matchedPairs_total (query a)) as (ps & E & S).
  rewrite (parseGraphInput_of_pairs _ _ E).
  eexists. eexists. split; [reflexivity|].
  cbn [graphNodes graphEdges ui nodes edges].
  repeat split.
  rewrite length_map. unfold mapi. rewrite length_mapi_from, nodeSetOf_tokens.
  pose proof (length_addAll (tokens ps) []) as H.
  rewrite length_tokens in H. simpl in H. lia.
Qed.

Lemma submit_graph_witness :
  let a := mkApp used "[(A,B),(B,C)]" graph_ [] [] None in
  List.length (graphNodes (onSubmit sampleWorld a)) = 3
  /\ List.length (graphEdges (onSubmit sampleWorld a)) = 2
  /\ requests (ui (onSubmit sampleWorld a)) = requests used
  /\ transactions (ui (onSubmit sampleWorld a)) = transactions used.
Proof.
  cbv zeta.
  destruct (submit_graph sampleWorld
              (mkApp used "[(A,B),(B,C)]" graph_ [] [] None) eq_refl)
    as (g & e & _ & _ & _ & _ & _ & _ & Hr & _ & Ht & _).
  split; [reflexivity|]. split; [reflexivity|]. split; [exact Hr | exact Ht].
Defined.

(** X17.  Submitting a query made of white space only, in single mode,
    changes nothing: no lookup is started. *)
Theorem submit_blank (w : World) (a : AppState) :
  mode a = single ->
  forallb isWhiteSpace (chars (query a)) = true ->
  onSubmit w a = a.
Proof.
  intros Hm Hb. unfold onSubmit. rewrite Hm, (trim_blank _ Hb).
  apply withUi_same. now rewrite doLookup_empty.
Qed.

Lemma submit_blank_witness :
  onSubmit sampleWorld (mkApp used "   " single [] [] None)
  = mkApp used "   " single [] [] None.
Proof.
  apply submit_blank; reflexivity.
Defined.

(** X18.  A click on a node whose title is empty selects the node and
    shows the modal, and nothing else: no lookup runs, so log, profile,
    transactions, in-progress flag and requests are those of before. *)
Theorem click_empty_node (w : World) (node : INode) (a : AppState) :
  title node = "" ->
  handleNodeClick w node a =
    mkApp (mkState (logs (ui a)) (profile (ui a)) (transactions (ui a))
                   (loading (ui a)) true (requests (ui a)))
          (query a) (mode a) (graphNodes a) (graphEdges a) (Some (id node)).
Proof.
  intros Ht. unfold handleNodeClick, withUi. rewrite Ht.
  cbn [ui query mode graphNodes graphEdges selectedNode].
  now rewrite doLookup_empty.
Qed.

(** Such a node comes out of the parser for the input [( ,b)]. *)
Lemma click_empty_node_witness :
  exists g node,
    parseGraphInput "( ,b)" = Some g
    /\ In node (nodes g)
    /\ title node = ""
    /\ profile (ui (handleNodeClick sampleWorld node
                      (mkApp used "( ,b)" graph_ (nodes g) (edges g) None)))
       = profile used
    /\ showModal (ui (handleNodeClick sampleWorld node
                        (mkApp used "( ,b)" graph_ (nodes g) (edges g) None)))
       = true.
Proof.
  eexists. exists (nodeOf "" 0). split; [reflexivity|].
  split; [now left|]. split; [reflexivity|].
  rewrite (click_empty_node sampleWorld (nodeOf "" 0) _ eq_refl).
  split; reflexivity.
Defined.

Lemma doLookup_showModal w name st b :
  name <> "" ->
  doLookup w name (mkState (logs st) (profile st) (transactions st)
                           (loading st) b (requests st))
  = doLookup w name st.
Proof.
  intros Hname. now rewrite !doLookup_unfold, (truthy_nonempty _ Hname).
Qed.

(** X19.  A click on a node of a parsed graph, when its title is not
    empty, is the lookup that typing the title into single mode and
    submitting would be: both leave the same log, profile, transactions,
    flags and requests. *)
Theorem click_is_submit (w : World) (input : string) (g : graph)
        (node : INode) (a : AppState) :
  parseGraphInput input = Some g ->
  In node (nodes g) ->
  title node <> "" ->
  ui (handleNodeClick w node a)
  = ui (onSubmit w (mkApp (ui a) (title node) single (graphNodes a)
                          (graphEdges a) (selectedNode a))).
Proof.
  intros E Hn Hne. destruct (node_of_parse _ _ _ E Hn) as (Ht & Hi).
  unfold handleNodeClick, onSubmit, withUi.
  cbn [ui query mode graphNodes graphEdges selectedNode].
  rewrite Ht, Hi. f_equal.
  apply doLookup_showModal. now rewrite <- Ht.
Qed.

Lemma click_is_submit_witness :
  let a := mkApp used "[(vitalik.eth,nick.eth)]" graph_ [] [] None in
  ui (handleNodeClick sampleWorld (nodeOf "vitalik.eth" 0) a)
  = ui (onSubmit sampleWorld
          (mkApp used "vitalik.eth" single [] [] None)).
Proof.
  cbv zeta.
  refine (click_is_submit sampleWorld "[(vitalik.eth,nick.eth)]" _
            (nodeOf "vitalik.eth" 0) _ eq_refl _ _).
  - now left.
  - discriminate.
Defined.

End AppFacts.

(* ================================================================= *)
(** * Properties of the command-line lookup *)

Module ScriptFacts.
Import JsString Js Lookup LookupSpec Sample Script MoreSpec.

Lemma records_cases r :
  match records r with
  | (Ok _, _) => Resolver.getAddress r <> None
                 /\ Resolver.getContentHash r <> None
  | (Err _, _) => Resolver.getAddress r = None
                  \/ Resolver.getContentHash r = None
  end.
Proof.
  unfold records. destruct (Resolver.getAddress r); [|now left].
  destruct (Resolver.getContentHash r); [|now right].
  split; discriminate.
Qed.

(** X20.  Once the JSON-RPC client is built, [main] ends normally and
    prints exactly two lines: the greeting, and then either the result
    or the error, the error only when the name resolution or the request
    for the resolver throws or the resolver lacks a method; when the
    client cannot be built, [main] throws and prints nothing. *)
Theorem main_prints_two_lines (w : World) :
  match JsonRpcProvider w "https://eth.llamarpc.com" with
  | Err e => ending (main w) = Throw e /\ console (main w) = []
  | Ok provider =>
      ending (main w) = Normal tt
      /\ exists report,
           console (main w) = [greeting; report]
           /\ isReport report
           /\ ((exists e, report = ConsoleError "Error looking up ENS:" e)
               <-> ((exists e, resolveName provider ensName = Err e)
                    \/ (exists e, getResolver provider ensName = Err e)
                    \/ (exists r, getResolver provider ensName = Ok (Some r)
                                  /\ (Resolver.getAddress r = None
                                      \/ Resolver.getContentHash r = None))))
  end.
Proof.
  unfold main.
  destruct (JsonRpcProvider w "https://eth.llamarpc.com") as [provider|e];
    [|split; reflexivity].
  destruct (resolveName provider ensName) as [address|e] eqn:En.
  - destruct (getResolver provider ensName) as [[r|]|e] eqn:Er.
    + pose proof (records_cases r) as Hc.
      destruct (records r) as [[recs|e] more].
      * split; [reflexivity|]. eexists. split; [reflexivity|].
        split; [exact I|]. split.
        -- intros (e & [=]).
        -- intros [(e & [=])|[(e & [=])|(r' & [= <-] & Hr)]].
           destruct Hc as (Ha & Hh). destruct Hr; contradiction.
      * split; [reflexivity|]. eexists. split; [reflexivity|].
        split; [reflexivity|]. split; [|now eexists].
        intros _. right. right. exists r. split; [reflexivity | exact Hc].
    + split; [reflexivity|]. eexists. split; [reflexivity|].
      split; [exact I|]. split.
      * intros (e & [=]).
      * intros [(e & [=])|[(e & [=])|(r' & [=] & _)]].
    + split; [reflexivity|]. eexists. split; [reflexivity|].
      split; [reflexivity|]. split; [|now eexists].
      intros _. right. left. now exists e.
  - split; [reflexivity|]. eexists. split; [reflexivity|].
    split; [reflexivity|]. split; [|now eexists].
    intros _. left. now exists e.
Qed.

(** With a resolver that has its methods, the record fetches of
    [main] are isolated: all six are made, in order, each slot of the
    result holds what its own fetch gave, or [null] when that fetch threw
    or gave nothing, and the result is printed, not the error. *)
Theorem main_records_isolated (w : World) (provider : Provider)
        (address : option string) (r : Resolver.t)
        (getAddress : option nat -> result (option string))
        (contentHash : result (option string)) :
  JsonRpcProvider w "https://eth.llamarpc.com" = Ok provider ->
  resolveName provider ensName = Ok address ->
  getResolver provider ensName = Ok (Some r) ->
  Resolver.getAddress r = Some getAddress ->
  Resolver.getContentHash r = Some contentHash ->
  console (main w) =
    [greeting;
     ConsoleLogJson
       (VObject
          [("ens", VString ensName);
           ("address", ofNullable address);
           ("records",
            VObject
              [("text",
                VObject [("avatar", orNull (Resolver.getText r "avatar"));
                         ("email", orNull (Resolver.getText r "email"));
                         ("url", orNull (Resolver.getText r "url"));
                         ("description",
                          orNull (Resolver.getText r "description"))]);
               ("addr", VObject [("ETH", orNull (getAddress (Some 60)))]);
               ("contentHash", orNull contentHash)])])]
  /\ sent (main w) =
       [ReqResolveName ensName; ReqGetResolver ensName;
        ReqGetText "avatar"; ReqGetText "email"; ReqGetText "url";
        ReqGetText "description"; ReqGetAddress (Some 60); ReqGetContentHash].
Proof.
  intros Hp Hn Hr Ha Hc. unfold main, records.
  rewrite Hp, Hn, Hr, Ha, Hc. split; reflexivity.
Qed.

Lemma main_records_isolated_witness :
  exists avatar,
    console (main sampleWorld) =
      [greeting;
       ConsoleLogJson
         (VObject
            [("ens", VString "vitalik.eth");
             ("address", VString vitalik);
             ("records",
              VObject
                [("text",
                  VObject [("avatar", avatar); ("email", VNull);
                           ("url", VString "");
                           ("description", VString "hello")]);
                 ("addr", VObject [("ETH", VString vitalik)]);
                 ("contentHash", VString "ipfs://QmContent")])])].
Proof.
  eexists.
  exact (proj1 (main_records_isolated sampleWorld sampleProvider (Some vitalik)
                  sampleResolver (fun _ => Ok (Some vitalik))
                  (Ok (Some "ipfs://QmContent"))
                  eq_refl eq_refl eq_refl eq_refl eq_refl)).
Defined.

End ScriptFacts.
